(** * PDF file-name editor: the name normalizer and the batch pipeline

    A shallow embedding of [src/App.tsx]: the pure function
    [processFileName], the archive reader [extractPDFsFromZip], the
    submission handler [handleFiles], the packager [downloadAllAsZip] and
    the two small state updates [removeFile] and [clearAll].

    JavaScript strings are sequences of UTF-16 code units; they are modelled
    as lists of code units, so that [length], [slice], [split] and the
    regular expressions of the source act on the same positions as in the
    program. *)

From Stdlib Require Import List NArith Arith Bool Lia Ascii.
From Stdlib Require String.
Import ListNotations.
Import String.StringSyntax.

Set Implicit Arguments.

(* ================================================================== *)
(** ** JavaScript strings *)

Module JS.

(** A UTF-16 code unit. *)
Definition codeUnit := N.

Definition jsstring := list codeUnit.

(** A literal of the source made of ASCII characters only. *)
Definition lit (s : String.string) : jsstring :=
  map N_of_ascii (String.list_ascii_of_string s).

Arguments lit s%_string_scope.

Fixpoint eqb (s t : jsstring) : bool :=
  match s, t with
  | [], [] => true
  | c :: s', d :: t' => N.eqb c d && eqb s' t'
  | _, _ => false
  end.

(** Truthiness of a string: the empty string is the only falsy one. *)
Definition truthy (s : jsstring) : bool :=
  match s with [] => false | _ :: _ => true end.

Definition isUpper (c : codeUnit) : bool := (N.leb 65 c && N.leb c 90)%bool.
Definition isLower (c : codeUnit) : bool := (N.leb 97 c && N.leb c 122)%bool.
Definition isDigit (c : codeUnit) : bool := (N.leb 48 c && N.leb c 57)%bool.

(** [String.prototype.toLowerCase], one code unit at a time.  The program
    only ever asks whether the lowered name ends in [.zip] or [.pdf].  An
    ASCII code unit other than [A-Z] is unchanged.  A code unit outside
    ASCII lowers to code units outside ASCII, with two exceptions that
    cannot take part in those suffixes (U+212A lowers to [k]; U+0130 lowers
    to [i] followed by U+0307), so such units are left as they are. *)
Definition lowerUnit (c : codeUnit) : codeUnit :=
  if isUpper c then (c + 32)%N else c.

Definition toLowerCase (s : jsstring) : jsstring := map lowerUnit s.

(** The [Canonicalize] operation of a regular expression with the [i]
    flag and without the [u] flag: upper-casing, except that a code unit
    outside ASCII never becomes an ASCII one.  The patterns of the program
    hold ASCII characters only, so upper-casing [a-z] decides every
    comparison. *)
Definition canonicalize (c : codeUnit) : codeUnit :=
  if isLower c then (c - 32)%N else c.

Fixpoint eqbCI (s t : jsstring) : bool :=
  match s, t with
  | [], [] => true
  | c :: s', d :: t' => N.eqb (canonicalize c) (canonicalize d) && eqbCI s' t'
  | _, _ => false
  end.

(** [s.endsWith(suffix)]. *)
Definition endsWith (suffix s : jsstring) : bool :=
  (length suffix <=? length s) &&
  eqb (skipn (length s - length suffix) s) suffix.

(** Does [/<ext>$/i] match [s]?  [ext] is the literal text of the pattern
    (the escaped dot included).  Without the [m] flag [$] only holds at
    the end of the input, so the one possible match is the last
    [length ext] code units. *)
Definition matchesAtEndCI (ext s : jsstring) : bool :=
  (length ext <=? length s) &&
  eqbCI (skipn (length s - length ext) s) ext.

(** [s.replace(/<ext>$/i, '')]. *)
Definition replaceAtEndCI (ext s : jsstring) : jsstring :=
  if matchesAtEndCI ext s then firstn (length s - length ext) s else s.

(** [s.split(sep)] for a separator of one code unit.  The result always
    has at least one element: the empty string splits into [['']]. *)
Fixpoint split (sep : codeUnit) (s : jsstring) : list jsstring :=
  match s with
  | [] => [[]]
  | c :: s' =>
      if N.eqb c sep then [] :: split sep s'
      else match split sep s' with
           | p :: ps => (c :: p) :: ps
           | [] => [[c]]
           end
  end.

(** [parts.join(sep)]. *)
Fixpoint join (sep : jsstring) (parts : list jsstring) : jsstring :=
  match parts with
  | [] => []
  | [p] => p
  | p :: ps => p ++ sep ++ join sep ps
  end.

(** [parts.slice(n)] for [n >= 0]. *)
Definition slice {A : Type} (n : nat) (l : list A) : list A := skipn n l.

End JS.

Import JS.

Definition underscore : codeUnit := 95%N.

(* ================================================================== *)
(** ** The name normalizer ([processFileName]) *)

(** The three messages of [processFileName].  Each one is the text of the
    source; code units outside ASCII are written by number. *)

(** 'Dateiname hat weniger als 4 Unterstriche "_"' *)
Definition msgTooFewSeparators : jsstring :=
  lit "Dateiname hat weniger als 4 Unterstriche " ++ [34%N; 95%N; 34%N].

(** 'Kein gültiger Dateiname nach dem 4. Unterstrich gefunden' *)
Definition msgEmptyResult : jsstring :=
  lit "Kein g" ++ [252%N] ++
  lit "ltiger Dateiname nach dem 4. Unterstrich gefunden".

(** 'Dateiname entspricht nicht dem erwarteten Format (muss mit Zahl) oder
    Buchstabe beginnen)' *)
Definition msgUnexpectedFormat : jsstring :=
  lit "Dateiname entspricht nicht dem erwarteten Format (muss mit Zahl) oder Buchstabe beginnen)".

(** The result object [{ newName: string; error?: string }]; an absent
    [error] is [None]. *)
Module NameResult.
Record t : Type := make {
  newName : jsstring;
  error : option jsstring
}.
End NameResult.

Definition dotPdf : jsstring := lit ".pdf".
Definition dotZip : jsstring := lit ".zip".

(** The rest of [s] after its leading decimal digits. *)
Fixpoint dropDigits (s : jsstring) : jsstring :=
  match s with
  | c :: s' => if isDigit c then dropDigits s' else s
  | [] => []
  end.

(** [/^\d+\)/.test(s)]: one digit at least, then a closing parenthesis.  A
    parenthesis is no digit, so the greedy [\d+] never has to give back. *)
Definition startsWithNumber (s : jsstring) : bool :=
  match s with
  | c :: s' =>
      isDigit c &&
      match dropDigits s' with
      | d :: _ => N.eqb d 41
      | [] => false
      end
  | [] => false
  end.

(** The seven letters listed after [a-zA-Z] in the character class, as the
    source file has them (precomposed): ä ö ü Ä Ö Ü ß. *)
Definition germanLetters : list codeUnit :=
  [228; 246; 252; 196; 214; 220; 223]%N.

(** [/^[a-zA-ZäöüÄÖÜß]/.test(s)]. *)
Definition startsWithWord (s : jsstring) : bool :=
  match s with
  | c :: _ => isLower c || isUpper c || existsb (N.eqb c) germanLetters
  | [] => false
  end.

Definition processFileName (fileName : jsstring) : NameResult.t :=
  let nameWithoutExt := replaceAtEndCI dotPdf fileName in
  let parts := split underscore nameWithoutExt in
  if length parts <? 5 then
    {| NameResult.newName := fileName; NameResult.error := Some msgTooFewSeparators |}
  else
    let actualFileName := join [underscore] (slice 4 parts) in
    if negb (truthy actualFileName) then
      {| NameResult.newName := fileName; NameResult.error := Some msgEmptyResult |}
    else
      if negb (startsWithNumber actualFileName) &&
         negb (startsWithWord actualFileName) then
        {| NameResult.newName := fileName; NameResult.error := Some msgUnexpectedFormat |}
      else
        {| NameResult.newName := actualFileName ++ dotPdf;
           NameResult.error := None |}.


(* ================================================================== *)
(** ** Files, archives and the batch *)

(** A [File] of the browser: its name, its declared media type and its
    payload.  The payload is opaque to the program, so its type [Blob] is a
    parameter. *)
Record File (Blob : Type) : Type := mkFile {
  name : jsstring;
  type : jsstring;
  content : Blob
}.

(** One entry of [zip.files]: its [dir] flag and the outcome of
    [await file.async('blob')], [None] when that call throws. *)
Record ZipObject (Blob : Type) : Type := mkZipObject {
  dir : bool;
  async : option Blob
}.

(** The part of the JSZip library the program calls.  The library is not
    part of the repository; the program is modelled over any
    implementation of these operations.  A call that can throw returns an
    option. *)
Class JSZipAPI (Blob : Type) : Type := {
  JSZip : Type;
  (** [new JSZip()] *)
  JSZip_new : JSZip;
  (** [zip.file(name, data)] *)
  JSZip_file : JSZip -> jsstring -> Blob -> JSZip;
  (** [Object.entries(zip.files)] *)
  JSZip_files : JSZip -> list (jsstring * ZipObject Blob);
  (** [await zip.generateAsync({ type: 'blob' })] *)
  JSZip_generateAsync : JSZip -> option Blob;
  (** [await new JSZip().loadAsync(blob)] *)
  JSZip_loadAsync : Blob -> option JSZip
}.

(** What the browser decides when the program reads a file it was given:
    [await file.arrayBuffer()] gives the bytes of the file, or rejects (a
    file on disk that has gone or can no longer be read).  Which files
    reject is outside the program, so it is a parameter. *)
Class FileAPI (Blob : Type) : Type := {
  arrayBuffer_rejects : File Blob -> bool
}.

(** [await file.arrayBuffer()]: [None] when the promise rejects. *)
Definition arrayBuffer {Blob : Type} {fileLib : FileAPI Blob}
    (file : File Blob) : option Blob :=
  if arrayBuffer_rejects file then None else Some (content file).

Inductive Status : Type :=
| StatusProcessed   (* 'processed' *)
| StatusError.      (* 'error' *)

Definition Status_eqb (a b : Status) : bool :=
  match a, b with
  | StatusProcessed, StatusProcessed => true
  | StatusError, StatusError => true
  | _, _ => false
  end.

(** [interface ProcessedFile]. *)
Record ProcessedFile (Blob : Type) : Type := mkProcessedFile {
  originalFile : File Blob;
  originalName : jsstring;
  newName : jsstring;
  status : Status;
  errorMessage : option jsstring
}.

(** The two pieces of React state the core reads and writes:
    [files] and [uploadedZipName]. *)
Record AppState (Blob : Type) : Type := mkAppState {
  files : list (ProcessedFile Blob);
  uploadedZipName : jsstring
}.

(** 'Keine PDF-Dateien in der ZIP-Datei gefunden' *)
Definition msgNoPdfInZip : jsstring :=
  lit "Keine PDF-Dateien in der ZIP-Datei gefunden".

(** 'ZIP-Datei konnte nicht verarbeitet werden' *)
Definition msgZipUnreadable : jsstring :=
  lit "ZIP-Datei konnte nicht verarbeitet werden".

Definition applicationPdf : jsstring := lit "application/pdf".

(** 'bAV-Angebot.zip' *)
Definition defaultZipFileName : jsstring := lit "bAV-Angebot.zip".

(** Truthiness of an optional string ([result.error ? ... : ...]). *)
Definition truthyOpt (o : option jsstring) : bool :=
  match o with
  | Some s => truthy s
  | None => false
  end.

(** How [handleFiles] sorts an input, by its two-armed [if]. *)
Inductive InputKind : Type :=
| Archive
| LoosePdf
| Ignored.

(** What [downloadAllAsZip] does: it returns at once, or it offers a
    download of [zipBlob] under [zipFileName], or it ends in the [catch]
    with an alert. *)
Inductive DownloadOutcome (Blob : Type) : Type :=
| NothingToPackage
| Download (zipFileName : jsstring) (zipBlob : Blob)
| Alert.

Arguments NothingToPackage {Blob}.
Arguments Alert {Blob}.

Section Pipeline.

Context {Blob : Type} {zipLib : JSZipAPI Blob} {fileLib : FileAPI Blob}.

(** The body of the [for] loop of [extractPDFsFromZip], over the entries
    still to visit, with the [pdfFiles] pushed so far. *)
Fixpoint extractLoop (entries : list (jsstring * ZipObject Blob))
    (pdfFiles : list (File Blob)) : option (list (File Blob)) :=
  match entries with
  | [] => Some pdfFiles
  | (filename, file) :: rest =>
      if negb (dir file) && endsWith dotPdf (toLowerCase filename) then
        match async file with
        | Some blob =>
            let pdfFile :=
              {| name := filename; type := applicationPdf; content := blob |} in
            extractLoop rest (pdfFiles ++ [pdfFile])
        | None => None
        end
      else extractLoop rest pdfFiles
  end.

(** [extractPDFsFromZip]: [None] stands for the [Error] thrown from the
    [catch] block. *)
Definition extractPDFsFromZip (zipFile : File Blob) : option (list (File Blob)) :=
  match JSZip_loadAsync (content zipFile) with
  | Some zipContent => extractLoop (JSZip_files zipContent) []
  | None => None
  end.

(** The item pushed for a PDF, loose or out of an archive. *)
Definition processedFileOf (file : File Blob) : ProcessedFile Blob :=
  let result := processFileName (name file) in
  {| originalFile := file;
     originalName := name file;
     newName := NameResult.newName result;
     status := if truthyOpt (NameResult.error result)
               then StatusError else StatusProcessed;
     errorMessage := NameResult.error result |}.

(** The item pushed for an archive as a whole. *)
Definition archiveError (file : File Blob) (message : jsstring)
  : ProcessedFile Blob :=
  {| originalFile := file;
     originalName := name file;
     newName := name file;
     status := StatusError;
     errorMessage := Some message |}.

Definition classify (file : File Blob) : InputKind :=
  if endsWith dotZip (toLowerCase (name file)) then Archive
  else if eqb (type file) applicationPdf
          || endsWith dotPdf (toLowerCase (name file)) then LoosePdf
  else Ignored.

(** The state of the loop of [handleFiles]: the local [processedFiles] and
    the value last given to [setUploadedZipName]. *)
Definition LoopState : Type := (list (ProcessedFile Blob) * jsstring)%type.

(** The archive arm of the loop. *)
Definition handleArchive (file : File Blob) (acc : LoopState) : LoopState :=
  let processedFiles := fst acc in
  let zipName := replaceAtEndCI dotZip (name file) in
  match extractPDFsFromZip file with
  | Some pdfFiles =>
      if length pdfFiles =? 0 then
        (processedFiles ++ [archiveError file msgNoPdfInZip], zipName)
      else
        (fold_left (fun pushed pdfFile => pushed ++ [processedFileOf pdfFile])
                   pdfFiles processedFiles,
         zipName)
  | None =>
      (processedFiles ++ [archiveError file msgZipUnreadable], zipName)
  end.

(** The loose-PDF arm of the loop. *)
Definition handleLoosePdf (file : File Blob) (acc : LoopState) : LoopState :=
  (fst acc ++ [processedFileOf file], snd acc).

(** One turn of the loop. *)
Definition handleFile (acc : LoopState) (file : File Blob) : LoopState :=
  match classify file with
  | Archive => handleArchive file acc
  | LoosePdf => handleLoosePdf file acc
  | Ignored => acc
  end.

(** [handleFiles]: the loop, then
    [setFiles(prev => [...prev, ...processedFiles])].  A failed extraction
    is caught inside the loop and nothing else in it throws, so the outer
    [catch] is never entered. *)
Definition handleFiles (st : AppState Blob) (fileList : list (File Blob))
  : AppState Blob :=
  let final := fold_left handleFile fileList ([], uploadedZipName st) in
  {| files := files st ++ fst final; uploadedZipName := snd final |}.

(** [prev.filter((_, i) => i !== index)]. *)
Definition removeFile (st : AppState Blob) (index : nat) : AppState Blob :=
  {| files :=
       map snd (filter (fun p => negb (fst p =? index))
                       (combine (seq 0 (length (files st))) (files st)));
     uploadedZipName := uploadedZipName st |}.

Definition clearAll (st : AppState Blob) : AppState Blob :=
  {| files := []; uploadedZipName := [] |}.

(** The state of [useState] at the first render. *)
Definition initialState : AppState Blob :=
  {| files := []; uploadedZipName := [] |}.

Definition isProcessed (f : ProcessedFile Blob) : bool :=
  Status_eqb (status f) StatusProcessed.

(** The [for] loop of [downloadAllAsZip]: for each file, read its bytes
    and call [zip.file].  [None] when a read rejects: the loop is left for
    the [catch]. *)
Fixpoint addAll (successfulFiles : list (ProcessedFile Blob)) (zip : JSZip)
  : option JSZip :=
  match successfulFiles with
  | [] => Some zip
  | file :: rest =>
      match arrayBuffer (originalFile file) with
      | Some buffer => addAll rest (JSZip_file zip (newName file) buffer)
      | None => None
      end
  end.

Definition downloadAllAsZip (st : AppState Blob) : DownloadOutcome Blob :=
  let successfulFiles := filter isProcessed (files st) in
  if length successfulFiles =? 0 then NothingToPackage
  else
    match addAll successfulFiles JSZip_new with
    | Some zip =>
        match JSZip_generateAsync zip with
        | Some zipBlob =>
            let zipFileName :=
              if truthy (uploadedZipName st)
              then uploadedZipName st ++ dotZip
              else defaultZipFileName in
            Download zipFileName zipBlob
        | None => Alert
        end
    | None => Alert
    end.

(** What one input adds to [processedFiles]: a turn of the loop that starts
    with nothing pushed. *)
Definition itemsOf (file : File Blob) : list (ProcessedFile Blob) :=
  fst (handleFile ([], []) file).

Definition isArchive (file : File Blob) : bool :=
  match classify file with
  | Archive => true
  | _ => false
  end.

(** The archives among the inputs, in input order. *)
Definition archivesOf (fileList : list (File Blob)) : list (File Blob) :=
  filter isArchive fileList.

(** [file.name.replace(/\.zip$/i, '')] *)
Definition zipNameOf (file : File Blob) : jsstring :=
  replaceAtEndCI dotZip (name file).

(** Several submissions, one after the other. *)
Definition handleAll (st : AppState Blob) (submissions : list (list (File Blob)))
  : AppState Blob :=
  fold_left handleFiles submissions st.

(** The states a session can be in: the first render, then any sequence
    of submissions, removals and clears. *)
Inductive Reachable : AppState Blob -> Prop :=
| Reachable_initial : Reachable initialState
| Reachable_handleFiles : forall st fileList,
    Reachable st -> Reachable (handleFiles st fileList)
| Reachable_removeFile : forall st index,
    Reachable st -> Reachable (removeFile st index)
| Reachable_clearAll : forall st,
    Reachable st -> Reachable (clearAll st).

End Pipeline.

(** A file name that ends in [.zip], in any mix of upper and lower case:
    a dot, then [z] or [Z], [i] or [I], [p] or [P]. *)
Definition endsInDotZip (s : jsstring) : Prop :=
  exists (stem : jsstring) (z i p : codeUnit),
    s = stem ++ [46%N; z; i; p] /\
    (z = 122%N \/ z = 90%N) /\
    (i = 105%N \/ i = 73%N) /\
    (p = 112%N \/ p = 80%N).

(** [l1] is [l2] with some elements left out, the others in the order they
    have in [l2]. *)
Inductive Subsequence {A : Type} : list A -> list A -> Prop :=
| Subsequence_nil : Subsequence [] []
| Subsequence_skip : forall x l1 l2,
    Subsequence l1 l2 -> Subsequence l1 (x :: l2)
| Subsequence_keep : forall x l1 l2,
    Subsequence l1 l2 -> Subsequence (x :: l1) (x :: l2).

(* ================================================================== *)
(** ** What the archive library is expected to do *)

(** Assignment [o[k] = v] on a JavaScript object, seen as the list of its
    entries in enumeration order: a key already present keeps its place and
    takes the new value, a new key goes to the end.  (Keys that are array
    indices enumerate first; a name ending in [.pdf] is never one.) *)
Fixpoint assign {V : Type} (o : list (jsstring * V)) (k : jsstring) (v : V)
  : list (jsstring * V) :=
  match o with
  | [] => [(k, v)]
  | (k', v') :: o' =>
      if eqb k' k then (k, v) :: o' else (k', v') :: assign o' k v
  end.

Definition assignAll {V : Type} (writes : list (jsstring * V))
    (o : list (jsstring * V)) : list (jsstring * V) :=
  fold_left (fun o w => assign o (fst w) (snd w)) writes o.

(** The test of [extractPDFsFromZip] on one entry. *)
Definition isPdfEntry {Blob : Type} (e : jsstring * ZipObject Blob) : bool :=
  negb (dir (snd e)) && endsWith dotPdf (toLowerCase (fst e)).

(** The entries of an archive the reader looks at, each with the outcome of
    reading its payload. *)
Definition pdfEntries {Blob : Type} (entries : list (jsstring * ZipObject Blob))
  : list (jsstring * option Blob) :=
  map (fun e => (fst e, async (snd e))) (filter isPdfEntry entries).

(** The file [extractPDFsFromZip] makes of an entry and its payload. *)
Definition fileOfEntry {Blob : Type} (w : jsstring * Blob) : File Blob :=
  {| name := fst w; type := applicationPdf; content := snd w |}.

(** The name and the payload [downloadAllAsZip] passes to [zip.file] for
    an item. *)
Definition writeOf {Blob : Type} (f : ProcessedFile Blob) : jsstring * Blob :=
  (newName f, content (originalFile f)).

(** A payload that can be read. *)
Definition readable {Blob : Type} (w : jsstring * Blob)
  : jsstring * option Blob :=
  (fst w, Some (snd w)).

(** The behaviour of the library that a round trip through an archive
    rests on.  [keepsName] holds of the entry names the library writes and
    reads back unchanged; JSZip does not keep every name: on loading it
    resolves the [.], [..] and empty segments of a path, and the archive
    format bounds the length of a name.  The law is about the archives the
    program makes: a fresh archive filled by [zip.file] calls under kept
    names that end in [.pdf], once generated, loads again, and the entries
    the reader looks at are then, in the order of their first writing, one
    readable entry per name with the data written last under it. *)
Class JSZipLaws {Blob : Type} (zipLib : JSZipAPI Blob)
    (keepsName : jsstring -> Prop) : Prop := {
  JSZip_written_archive_loads : forall (writes : list (jsstring * Blob)) blob,
    (forall w, In w writes ->
               endsWith dotPdf (toLowerCase (fst w)) = true /\
               keepsName (fst w)) ->
    JSZip_generateAsync
      (fold_left (fun zip w => JSZip_file zip (fst w) (snd w))
                 writes JSZip_new) = Some blob ->
    exists zip',
      JSZip_loadAsync blob = Some zip' /\
      pdfEntries (JSZip_files zip') = map readable (assignAll writes [])
}.

(* ================================================================== *)
(** ** An archive library in memory

    A small implementation of the interface, used to run the pipeline on
    concrete inputs: a payload is either raw bytes or a packed list of named
    payloads; only a packed payload loads as an archive. *)

#[warnings="-register-all"]
Inductive MemBlob : Type :=
| Raw (bytes : list N)
| Packed (entries : list (jsstring * MemBlob)).

#[export] Instance memZip : JSZipAPI MemBlob := {
  JSZip := list (jsstring * MemBlob);
  JSZip_new := [];
  JSZip_file := fun zip fileName data => assign zip fileName data;
  JSZip_files := fun zip =>
    map (fun e => (fst e, {| dir := false; async := Some (snd e) |})) zip;
  JSZip_generateAsync := fun zip => Some (Packed zip);
  JSZip_loadAsync := fun blob =>
    match blob with
    | Packed zip => Some zip
    | Raw _ => None
    end
}.

Definition pdfFile (fileName : String.string) (bytes : list N) : File MemBlob :=
  {| name := lit fileName; type := applicationPdf; content := Raw bytes |}.

Arguments pdfFile fileName%_string_scope bytes.

Definition zipFile (fileName : String.string) (payload : MemBlob)
  : File MemBlob :=
  {| name := lit fileName; type := lit "application/zip"; content := payload |}.

Arguments zipFile fileName%_string_scope payload.

(** Two archives for the examples: one with two PDFs and a text file, one
    without any PDF; and a file that is no archive at all. *)
Definition angebotZip : File MemBlob :=
  zipFile "Angebot.zip"
    (Packed [(lit "invoice.pdf", Raw [1]%N);
             (lit "readme.txt", Raw [2]%N);
             (lit "A_B_C_D_note.pdf", Raw [3]%N)]).

Definition leerZip : File MemBlob :=
  zipFile "Leer.ZIP" (Packed [(lit "readme.txt", Raw [2]%N)]).

Definition kaputtZip : File MemBlob :=
  zipFile "Kaputt.zip" (Raw [0; 1; 2]%N).

Definition zweitesZip : File MemBlob :=
  zipFile "Zweites.zip" (Packed [(lit "A_B_C_D_note.pdf", Raw [4]%N)]).

Definition looseOk : File MemBlob :=
  pdfFile "Max_Mustermann_01.01.2024_1500,00_1)_Beratung.pdf" [7; 7]%N.

Definition looseBad : File MemBlob :=
  pdfFile "kurz.pdf" [9]%N.

(** A second archive library in memory, in which an entry with an empty
    payload cannot be read: [async] throws for it. *)
Definition brittleZip : JSZipAPI MemBlob := {|
  JSZip := list (jsstring * MemBlob);
  JSZip_new := [];
  JSZip_file := fun zip fileName data => assign zip fileName data;
  JSZip_files := fun zip =>
    map (fun e =>
           (fst e,
            {| dir := false;
               async := match snd e with
                        | Raw [] => None
                        | payload => Some payload
                        end |})) zip;
  JSZip_generateAsync := fun zip => Some (Packed zip);
  JSZip_loadAsync := fun blob =>
    match blob with
    | Packed zip => Some zip
    | Raw _ => None
    end
|}.

(** An archive with a good PDF and a PDF that cannot be read. *)
Definition halbZip : File MemBlob :=
  zipFile "Halb.zip"
    (Packed [(lit "A_B_C_D_gut.pdf", Raw [5]%N);
             (lit "A_B_C_D_leer.PDF", Raw [])]).

(** An input that is neither an archive nor a PDF. *)
Definition notiz : File MemBlob :=
  {| name := lit "notiz.txt"; type := lit "text/plain";
     content := Raw [8]%N |}.

(** Files in memory can always be read. *)
#[export] Instance memFiles : FileAPI MemBlob := {
  arrayBuffer_rejects := fun _ => false
}.

(** Files of which those without bytes can no longer be read. *)
Definition lostFiles : FileAPI MemBlob := {|
  arrayBuffer_rejects := fun file =>
    match content file with
    | Raw [] => true
    | _ => false
    end
|}.

(** The loop of JSZip's [utils.resolve] over the segments of a path: a
    segment [.] is dropped, and so is an empty segment that is neither the
    first nor the last; a segment [..] takes back the segment before it (if
    there is one); any other segment is kept. *)
Fixpoint resolveLoop (parts : list jsstring) (index last : nat)
    (result : list jsstring) : list jsstring :=
  match parts with
  | [] => result
  | part :: rest =>
      resolveLoop rest (S index) last
        (if eqb part (lit ".")
            || (eqb part [] && negb (index =? 0) && negb (index =? last))
         then result
         else if eqb part (lit "..") then removelast result
         else result ++ [part])
  end.

(** The name under which JSZip's [loadAsync] files an entry: the path
    with its segments resolved.  (The library is not part of the
    repository; this follows what it does to names such as [x/../y.pdf],
    which it reads back as [y.pdf].) *)
Definition resolve (path : jsstring) : jsstring :=
  let parts := split 47%N path in
  join [47%N] (resolveLoop parts 0 (length parts - 1) []).

(** A third archive library in memory, which resolves paths on loading as
    JSZip does: every entry is filed under its resolved name, a later entry
    taking the place of an earlier one with the same resolved name. *)
Definition resolvingZip : JSZipAPI MemBlob := {|
  JSZip := list (jsstring * MemBlob);
  JSZip_new := [];
  JSZip_file := fun zip fileName data => assign zip fileName data;
  JSZip_files := fun zip =>
    map (fun e => (fst e, {| dir := false; async := Some (snd e) |})) zip;
  JSZip_generateAsync := fun zip => Some (Packed zip);
  JSZip_loadAsync := fun blob =>
    match blob with
    | Packed entries =>
        Some (assignAll (map (fun e => (resolve (fst e), snd e)) entries) [])
    | Raw _ => None
    end
|}.

(** A PDF whose name, after the fourth underscore, is a path with a [..]
    segment. *)
Definition pfadPdf : File MemBlob :=
  pdfFile "A_B_C_D_x/../y.pdf" [6]%N.

(** An archive whose name is nothing but the extension. *)
Definition nurEndungZip : File MemBlob :=
  zipFile ".zip" (Packed [(lit "A_B_C_D_note.pdf", Raw [3]%N)]).

(* ================================================================== *)
(** ** What the page derives from the state, and shapes of names *)

(** [files.filter(f => f.status === 'processed')], the list the page
    counts and [downloadAllAsZip] packages. *)
Definition successfulFiles {Blob : Type} (st : AppState Blob)
  : list (ProcessedFile Blob) :=
  filter (fun f => Status_eqb (status f) StatusProcessed) (files st).

(** [files.filter(f => f.status === 'error')]. *)
Definition errorFiles {Blob : Type} (st : AppState Blob)
  : list (ProcessedFile Blob) :=
  filter (fun f => Status_eqb (status f) StatusError) (files st).

(** The button that calls [downloadAllAsZip] is rendered under
    [files.length > 0 && (successfulFiles.length > 0 && ...)]. *)
Definition showsDownloadAll {Blob : Type} (st : AppState Blob) : bool :=
  (0 <? length (files st)) && (0 <? length (successfulFiles st)).

(** A row renders the message under [file.errorMessage && ...]. *)
Definition showsErrorMessage {Blob : Type} (f : ProcessedFile Blob) : bool :=
  truthyOpt (errorMessage f).

(** [a_b_c_d_rest]: four fields, each followed by an underscore, and what
    comes after the fourth underscore. *)
Definition fourFields (a b c d rest : jsstring) : jsstring :=
  a ++ underscore :: b ++ underscore :: c ++ underscore :: d
    ++ underscore :: rest.

Definition noUnderscore (s : jsstring) : Prop := ~ In underscore s.

(** A decimal digit, [0] to [9]. *)
Definition digitUnit (c : codeUnit) : Prop := (48 <= c /\ c <= 57)%N.

(** A letter of the character class [[a-zA-ZäöüÄÖÜß]]. *)
Definition letterUnit (c : codeUnit) : Prop :=
  (97 <= c /\ c <= 122)%N \/ (65 <= c /\ c <= 90)%N \/
  In c [228; 246; 252; 196; 214; 220; 223]%N.

(** A name that begins the way the normalizer wants: with a letter, or
    with one or more digits and a closing parenthesis. *)
Definition goodStart (s : jsstring) : Prop :=
  (exists c rest, s = c :: rest /\ letterUnit c) \/
  (exists digits rest,
      digits <> [] /\ Forall digitUnit digits /\
      s = digits ++ 41%N :: rest).

(** A file name that ends in [.pdf], in any mix of upper and lower case. *)
Definition endsInDotPdf (s : jsstring) : Prop :=
  exists (stem : jsstring) (p d f : codeUnit),
    s = stem ++ [46%N; p; d; f] /\
    (p = 112%N \/ p = 80%N) /\
    (d = 100%N \/ d = 68%N) /\
    (f = 102%N \/ f = 70%N).

(* ================================================================== *)
(** ** Strings: facts used below *)

Lemma eqb_refl (s : jsstring) : eqb s s = true.
Proof.
  induction s as [|c s IH]; simpl; [reflexivity|].
  now rewrite N.eqb_refl, IH.
Qed.

Lemma eqb_eq (s t : jsstring) : eqb s t = true <-> s = t.
Proof.
  split.
  - revert t; induction s as [|c s IH]; intros [|d t] H; simpl in H;
      try discriminate; [reflexivity|].
    apply andb_true_iff in H as [Hc Hs].
    apply N.eqb_eq in Hc. apply IH in Hs. now subst.
  - intros ->. apply eqb_refl.
Qed.

Lemma eqb_neq (s t : jsstring) : eqb s t = false <-> s <> t.
Proof.
  rewrite <- eqb_eq. destruct (eqb s t); split; congruence.
Qed.

Lemma eqbCI_length (s t : jsstring) : eqbCI s t = true -> length s = length t.
Proof.
  revert t; induction s as [|c s IH]; intros [|d t] H; simpl in H;
    try discriminate; [reflexivity|].
  apply andb_true_iff in H as [_ Hs]. simpl. f_equal. now apply IH.
Qed.

Lemma skipn_app_exact {A : Type} (l1 l2 : list A) n :
  n = length l1 -> skipn n (l1 ++ l2) = l2.
Proof.
  intros ->. induction l1; simpl; auto.
Qed.

Lemma firstn_app_exact {A : Type} (l1 l2 : list A) n :
  n = length l1 -> firstn n (l1 ++ l2) = l1.
Proof.
  intros ->. induction l1; simpl; [reflexivity|]. now f_equal.
Qed.

(** A name that ends in [suffix] passes the [endsWith] test. *)
Lemma endsWith_app (suffix s : jsstring) : endsWith suffix (s ++ suffix) = true.
Proof.
  unfold endsWith. rewrite length_app.
  apply andb_true_iff; split.
  - apply Nat.leb_le. lia.
  - rewrite skipn_app_exact by lia. apply eqb_refl.
Qed.

(** And a name that passes the test ends in [suffix]. *)
Lemma endsWith_inv (suffix s : jsstring) :
  endsWith suffix s = true -> exists stem, s = stem ++ suffix.
Proof.
  unfold endsWith. intros H. apply andb_true_iff in H as [_ H].
  apply eqb_eq in H.
  exists (firstn (length s - length suffix) s).
  pose proof (firstn_skipn (length s - length suffix) s) as E.
  rewrite H in E. now symmetry.
Qed.

(** The regular expression [/<ext>$/i] takes off any spelling of the
    extension, whatever its case. *)
Lemma replaceAtEndCI_app (ext ext' stem : jsstring) :
  eqbCI ext' ext = true -> replaceAtEndCI ext (stem ++ ext') = stem.
Proof.
  intros H. pose proof (eqbCI_length _ _ H) as Hlen.
  unfold replaceAtEndCI, matchesAtEndCI. rewrite length_app.
  replace (length stem + length ext' - length ext) with (length stem) by lia.
  rewrite skipn_app_exact by reflexivity. rewrite H.
  replace (length ext <=? length stem + length ext') with true
    by (symmetry; apply Nat.leb_le; lia).
  simpl. now apply firstn_app_exact.
Qed.

(** When the expression does not match, the name is left as it is. *)
Lemma replaceAtEndCI_no_match (ext s : jsstring) :
  matchesAtEndCI ext s = false -> replaceAtEndCI ext s = s.
Proof.
  unfold replaceAtEndCI. now intros ->.
Qed.

Lemma split_not_nil (sep : codeUnit) (s : jsstring) : split sep s <> [].
Proof.
  destruct s as [|c s]; simpl; [discriminate|].
  destruct (N.eqb c sep); [discriminate|].
  destruct (split sep s); discriminate.
Qed.

(** A split has one segment more than the string has separators. *)
Lemma split_length (sep : codeUnit) (s : jsstring) :
  length (split sep s) = S (count_occ N.eq_dec s sep).
Proof.
  induction s as [|c s IH]; simpl; [reflexivity|].
  destruct (N.eqb_spec c sep) as [->|Hne].
  - simpl. rewrite IH. now destruct (N.eq_dec sep sep).
  - destruct (N.eq_dec c sep); [contradiction|].
    pose proof (split_not_nil sep s) as Hnil.
    destruct (split sep s); [contradiction|]. exact IH.
Qed.

(** Joining the segments again gives the string back. *)
Lemma join_split (sep : codeUnit) (s : jsstring) :
  join [sep] (split sep s) = s.
Proof.
  induction s as [|c s IH]; simpl; [reflexivity|].
  pose proof (split_not_nil sep s) as Hnil.
  destruct (N.eqb_spec c sep) as [->|Hne].
  - simpl. destruct (split sep s) as [|p ps]; [contradiction|].
    now rewrite IH.
  - destruct (split sep s) as [|p ps]; [contradiction|].
    destruct ps as [|q qs]; simpl in *; now rewrite <- IH.
Qed.

Lemma toLowerCase_app (s t : jsstring) :
  toLowerCase (s ++ t) = toLowerCase s ++ toLowerCase t.
Proof. apply map_app. Qed.

Lemma truthy_false (s : jsstring) : truthy s = false <-> s = [].
Proof. destruct s; simpl; split; congruence. Qed.

(* ================================================================== *)
(** ** The name normalizer *)

(** The four ways out of [processFileName], each with its condition. *)
Lemma processFileName_cases (fileName : jsstring) :
  let parts := split underscore (replaceAtEndCI dotPdf fileName) in
  let actualFileName := join [underscore] (slice 4 parts) in
  (length parts < 5 /\
   processFileName fileName =
   {| NameResult.newName := fileName;
      NameResult.error := Some msgTooFewSeparators |}) \/
  (5 <= length parts /\ actualFileName = [] /\
   processFileName fileName =
   {| NameResult.newName := fileName;
      NameResult.error := Some msgEmptyResult |}) \/
  (5 <= length parts /\ actualFileName <> [] /\
   startsWithNumber actualFileName = false /\
   startsWithWord actualFileName = false /\
   processFileName fileName =
   {| NameResult.newName := fileName;
      NameResult.error := Some msgUnexpectedFormat |}) \/
  (5 <= length parts /\ actualFileName <> [] /\
   (startsWithNumber actualFileName = true \/
    startsWithWord actualFileName = true) /\
   processFileName fileName =
   {| NameResult.newName := actualFileName ++ dotPdf;
      NameResult.error := None |}).
Proof.
  intros parts actualFileName. unfold processFileName.
  fold parts. fold actualFileName.
  destruct (Nat.ltb_spec (length parts) 5) as [Hlt|Hge].
  { left. split; [exact Hlt|reflexivity]. }
  right.
  destruct (truthy actualFileName) eqn:Ht; simpl.
  2:{ left. apply truthy_false in Ht. repeat split; assumption. }
  right.
  assert (Hne : actualFileName <> []).
  { intros E. rewrite E in Ht. discriminate. }
  destruct (startsWithNumber actualFileName) eqn:Hn;
    destruct (startsWithWord actualFileName) eqn:Hw; simpl;
    [right|right|right|left]; repeat split; auto.
Qed.

(** C2.  A file name that, once a trailing [.pdf] in any case is taken
    off, splits on [_] into fewer than five segments has fewer than four
    underscores, and the normalizer rejects it with the message for too few
    separators and gives the file name back unchanged as [newName]. *)
Theorem processFileName_too_few_separators (fileName : jsstring) :
  length (split underscore (replaceAtEndCI dotPdf fileName)) < 5 ->
  count_occ N.eq_dec (replaceAtEndCI dotPdf fileName) underscore < 4 /\
  processFileName fileName =
  {| NameResult.newName := fileName;
     NameResult.error := Some msgTooFewSeparators |}.
Proof.
  intros H. split.
  - rewrite split_length in H. lia.
  - unfold processFileName.
    apply Nat.ltb_lt in H. now rewrite H.
Qed.

Lemma processFileName_too_few_separators_witness :
  count_occ N.eq_dec (replaceAtEndCI dotPdf (lit "A_B_C_rest.PDF")) underscore < 4 /\
  processFileName (lit "A_B_C_rest.PDF") =
  {| NameResult.newName := lit "A_B_C_rest.PDF";
     NameResult.error := Some msgTooFewSeparators |}.
Proof.
  apply (processFileName_too_few_separators (lit "A_B_C_rest.PDF")).
  vm_compute. lia.
Defined.

(** 'A_B_C_D_Bürobedarf.PDF' and 'Bürobedarf.pdf'. *)
Example processFileName_Buerobedarf :
  processFileName (lit "A_B_C_D_B" ++ [252%N] ++ lit "robedarf.PDF") =
  {| NameResult.newName := lit "B" ++ [252%N] ++ lit "robedarf.pdf";
     NameResult.error := None |}.
Proof. reflexivity. Qed.



(** C4.  The normalizer is a total function: every file name has a
    result.  A result with an error carries one of the three messages (too
    few separators, empty result, unexpected format), and its [newName] is
    the file name that came in. *)
Theorem processFileName_rejection_keeps_name (fileName : jsstring) :
  (exists result, processFileName fileName = result) /\
  forall message,
    NameResult.error (processFileName fileName) = Some message ->
    (message = msgTooFewSeparators \/ message = msgEmptyResult \/
     message = msgUnexpectedFormat) /\
    NameResult.newName (processFileName fileName) = fileName.
Proof.
  split; [eexists; reflexivity|].
  intros message Herr.
  destruct (processFileName_cases fileName)
    as [[_ E]|[[_ [_ E]]|[[_ [_ [_ [_ E]]]]|[_ [_ [_ E]]]]]];
    rewrite E in Herr |- *; simpl in *; inversion Herr; subst; auto.
Qed.

Lemma processFileName_rejection_keeps_name_witness :
  NameResult.newName (processFileName (lit "4_B_C_D_2somefile")) =
  lit "4_B_C_D_2somefile".
Proof.
  apply (proj2 (processFileName_rejection_keeps_name (lit "4_B_C_D_2somefile"))
               msgUnexpectedFormat).
  reflexivity.
Defined.

(* ================================================================== *)
(** ** The submission loop *)

Section PipelineFacts.

Context {Blob : Type} {zipLib : JSZipAPI Blob} {fileLib : FileAPI Blob}.

Lemma fold_left_push {A B : Type} (g : A -> B) (l : list A) (acc : list B) :
  fold_left (fun pushed x => pushed ++ [g x]) l acc = acc ++ map g l.
Proof.
  revert acc; induction l as [|x l IH]; intros acc; simpl.
  - now rewrite app_nil_r.
  - rewrite IH, <- app_assoc. reflexivity.
Qed.

(** A turn of the loop only pushes: what was pushed before stays in
    front, whatever it was. *)
Lemma handleFile_fst (acc : LoopState) (file : File Blob) :
  fst (handleFile acc file) = fst acc ++ itemsOf file.
Proof.
  unfold itemsOf, handleFile.
  destruct (classify file); simpl.
  - unfold handleArchive. simpl.
    destruct (extractPDFsFromZip file) as [pdfFiles|]; [|reflexivity].
    destruct (length pdfFiles =? 0); simpl; [reflexivity|].
    now rewrite !fold_left_push.
  - reflexivity.
  - now rewrite app_nil_r.
Qed.

(** A turn of the loop gives [setUploadedZipName] a new value for an
    archive and for nothing else. *)
Lemma handleFile_snd (acc : LoopState) (file : File Blob) :
  snd (handleFile acc file) =
  if isArchive file then zipNameOf file else snd acc.
Proof.
  unfold handleFile, isArchive.
  destruct (classify file); simpl; try reflexivity.
  unfold handleArchive, zipNameOf.
  destruct (extractPDFsFromZip file) as [pdfFiles|]; [|reflexivity].
  now destruct (length pdfFiles =? 0).
Qed.

Lemma loop_fst (fileList : list (File Blob)) (acc : LoopState) :
  fst (fold_left handleFile fileList acc) = fst acc ++ flat_map itemsOf fileList.
Proof.
  revert acc; induction fileList as [|file rest IH]; intros acc; simpl.
  - now rewrite app_nil_r.
  - rewrite IH, handleFile_fst, <- app_assoc. reflexivity.
Qed.

Lemma last_cons {A : Type} (l : list A) (x d : A) :
  last (x :: l) d = last l x.
Proof.
  revert x d; induction l as [|y l IH]; intros x d; [reflexivity|].
  change (last (x :: y :: l) d) with (last (y :: l) d).
  now rewrite !IH.
Qed.

Lemma loop_snd (fileList : list (File Blob)) (acc : LoopState) :
  snd (fold_left handleFile fileList acc) =
  last (map zipNameOf (archivesOf fileList)) (snd acc).
Proof.
  revert acc; induction fileList as [|file rest IH]; intros acc; simpl.
  - reflexivity.
  - rewrite IH, handleFile_snd. unfold archivesOf. simpl.
    destruct (isArchive file); [|reflexivity].
    cbn [map]. now rewrite last_cons.
Qed.

Lemma handleFiles_files (st : AppState Blob) (fileList : list (File Blob)) :
  files (handleFiles st fileList) = files st ++ flat_map itemsOf fileList.
Proof.
  unfold handleFiles. simpl. now rewrite loop_fst.
Qed.

Lemma handleFiles_uploadedZipName (st : AppState Blob)
    (fileList : list (File Blob)) :
  uploadedZipName (handleFiles st fileList) =
  last (map zipNameOf (archivesOf fileList)) (uploadedZipName st).
Proof.
  unfold handleFiles. simpl. now rewrite loop_snd.
Qed.

Lemma last_app_default {A : Type} (l1 l2 : list A) (d : A) :
  last (l1 ++ l2) d = last l2 (last l1 d).
Proof.
  revert d; induction l1 as [|x l1 IH]; intros d; [reflexivity|].
  rewrite <- app_comm_cons, !last_cons. apply IH.
Qed.

Lemma itemsOf_archive (file : File Blob) :
  classify file = Archive ->
  itemsOf file =
  match extractPDFsFromZip file with
  | Some [] => [archiveError file msgNoPdfInZip]
  | Some pdfFiles => map processedFileOf pdfFiles
  | None => [archiveError file msgZipUnreadable]
  end.
Proof.
  intros Hc. unfold itemsOf, handleFile. rewrite Hc.
  unfold handleArchive. simpl.
  destruct (extractPDFsFromZip file) as [[|pdf pdfFiles]|]; try reflexivity.
  simpl length. simpl Nat.eqb. cbv iota. simpl fst.
  now rewrite fold_left_push.
Qed.

Lemma itemsOf_loosePdf (file : File Blob) :
  classify file = LoosePdf -> itemsOf file = [processedFileOf file].
Proof.
  intros Hc. unfold itemsOf, handleFile. now rewrite Hc.
Qed.

Lemma itemsOf_ignored (file : File Blob) :
  classify file = Ignored -> itemsOf file = [].
Proof.
  intros Hc. unfold itemsOf, handleFile. now rewrite Hc.
Qed.

(** An archive without an entry named [*.pdf] extracts to no file. *)
Lemma extractLoop_no_pdf (entries : list (jsstring * ZipObject Blob))
    (pdfFiles : list (File Blob)) :
  (forall e, In e entries -> endsWith dotPdf (toLowerCase (fst e)) = false) ->
  extractLoop entries pdfFiles = Some pdfFiles.
Proof.
  revert pdfFiles; induction entries as [|[filename file] rest IH];
    intros pdfFiles H; simpl; [reflexivity|].
  pose proof (H (filename, file) (or_introl eq_refl)) as Hno.
  simpl in Hno. rewrite Hno, andb_false_r. apply IH. intros e He. apply H. now right.
Qed.

(* ================================================================== *)
(** ** Submissions *)

(** C7.  A submission appends to the batch and does nothing else to it:
    the items already there stay in front, in their order, and the items of
    the inputs follow input by input, so that all items of an input come
    before all items of the input after it. *)
Theorem handleFiles_appends_in_input_order (st : AppState Blob)
    (before after : list (File Blob)) (input next : File Blob) :
  files (handleFiles st (before ++ input :: next :: after)) =
  files st ++ flat_map itemsOf before
           ++ itemsOf input ++ itemsOf next
           ++ flat_map itemsOf after.
Proof.
  rewrite handleFiles_files, flat_map_app. reflexivity.
Qed.

(** C5.  An archive that cannot be read adds one item, an error with the
    message for an unreadable archive, and nothing for its contents; an
    archive that loads and has no entry named [*.pdf] adds one item, an
    error with the message for no PDF found.  In both cases the inputs
    before and after it in the submission add what they add anyway. *)
Theorem archive_errors_are_local (st : AppState Blob)
    (before after : list (File Blob)) (file : File Blob) :
  classify file = Archive ->
  (extractPDFsFromZip file = None ->
   files (handleFiles st (before ++ file :: after)) =
   files st ++ flat_map itemsOf before
            ++ [ {| originalFile := file;
                    originalName := name file;
                    newName := name file;
                    status := StatusError;
                    errorMessage := Some msgZipUnreadable |} ]
            ++ flat_map itemsOf after) /\
  (forall zipContent,
     JSZip_loadAsync (content file) = Some zipContent ->
     (forall e, In e (JSZip_files zipContent) ->
                endsWith dotPdf (toLowerCase (fst e)) = false) ->
     files (handleFiles st (before ++ file :: after)) =
     files st ++ flat_map itemsOf before
              ++ [ {| originalFile := file;
                      originalName := name file;
                      newName := name file;
                      status := StatusError;
                      errorMessage := Some msgNoPdfInZip |} ]
              ++ flat_map itemsOf after).
Proof.
  intros Hc.
  assert (Shape : files (handleFiles st (before ++ file :: after)) =
                  files st ++ flat_map itemsOf before ++ itemsOf file
                           ++ flat_map itemsOf after).
  { rewrite handleFiles_files, flat_map_app. reflexivity. }
  split.
  - intros Hfail. rewrite Shape, (itemsOf_archive _ Hc), Hfail. reflexivity.
  - intros zipContent Hload Hnone.
    rewrite Shape, (itemsOf_archive _ Hc).
    unfold extractPDFsFromZip. rewrite Hload.
    rewrite (extractLoop_no_pdf _ _ Hnone). reflexivity.
Qed.

(** C9.  An input whose name ends in [.zip], in any case, is an archive
    for the loop, whatever its media type, and its turn of the loop is the
    archive arm; an input that goes to the loose-PDF arm has a name that
    does not end in [.zip]. *)
Theorem zip_name_is_archive (file : File Blob) :
  (endsInDotZip (name file) ->
   classify file = Archive /\
   forall acc, handleFile acc file = handleArchive file acc) /\
  (classify file = LoosePdf -> ~ endsInDotZip (name file)).
Proof.
  assert (Zip : endsInDotZip (name file) -> classify file = Archive).
  { intros (stem & z & i & p & Hname & Hz & Hi & Hp).
    unfold classify. rewrite Hname, toLowerCase_app.
    replace (toLowerCase [46%N; z; i; p]) with dotZip
      by (destruct Hz, Hi, Hp; subst; reflexivity).
    now rewrite endsWith_app. }
  split.
  - intros H. pose proof (Zip H) as Hc. split; [exact Hc|].
    intros acc. unfold handleFile. now rewrite Hc.
  - intros Hc H. rewrite (Zip H) in Hc. discriminate.
Qed.

(** A read that does not reject gives the bytes of the file. *)
Lemma arrayBuffer_cases (file : File Blob) :
  arrayBuffer file = Some (content file) \/ arrayBuffer file = None.
Proof.
  unfold arrayBuffer. destruct (arrayBuffer_rejects file); auto.
Qed.

(** The loop of [downloadAllAsZip] comes to its end exactly when every
    read succeeds, and then each file was written with its own bytes. *)
Lemma addAll_Some (l : list (ProcessedFile Blob)) (zip zip' : JSZip) :
  addAll l zip = Some zip' <->
  Forall (fun f => arrayBuffer (originalFile f) =
                   Some (content (originalFile f))) l /\
  zip' = fold_left
           (fun zip f => JSZip_file zip (newName f) (content (originalFile f)))
           l zip.
Proof.
  revert zip; induction l as [|f l IH]; intros zip; simpl.
  - split.
    + intros [= <-]. split; [constructor|reflexivity].
    + now intros [_ ->].
  - destruct (arrayBuffer_cases (originalFile f)) as [E|E]; rewrite E.
    + rewrite IH. split.
      * intros [Hall ->]. split; [now constructor|reflexivity].
      * intros [Hall ->]. inversion Hall; subst. now split.
    + split; [discriminate|]. intros [Hall _].
      inversion Hall as [|? ? Hf _]; subst. congruence.
Qed.

Lemma addAll_None (l : list (ProcessedFile Blob)) (zip : JSZip) :
  addAll l zip = None <->
  exists f, In f l /\ arrayBuffer (originalFile f) = None.
Proof.
  revert zip; induction l as [|f l IH]; intros zip; simpl.
  - split; [discriminate|]. now intros (f & [] & _).
  - destruct (arrayBuffer_cases (originalFile f)) as [E|E]; rewrite E.
    + rewrite IH. split.
      * intros (g & Hin & Hg). exists g. split; [now right|exact Hg].
      * intros (g & [<-|Hin] & Hg); [congruence|]. now exists g.
    + split; [|reflexivity]. intros _. exists f. split; [now left|exact E].
Qed.

(** The archive name [downloadAllAsZip] offers, when it offers one. *)
Lemma downloadAllAsZip_name (st : AppState Blob) zipFileName zipBlob :
  downloadAllAsZip st = Download zipFileName zipBlob ->
  zipFileName =
  if truthy (uploadedZipName st) then uploadedZipName st ++ dotZip
  else defaultZipFileName.
Proof.
  unfold downloadAllAsZip.
  destruct (length (filter isProcessed (files st)) =? 0); [discriminate|].
  destruct (addAll _ _) as [zip|]; [|discriminate].
  destruct (JSZip_generateAsync _); [|discriminate].
  now intros [= <- _].
Qed.

Lemma filter_Subsequence {A : Type} (keep : A -> bool) (l : list A) :
  Subsequence (filter keep l) l.
Proof.
  induction l as [|x l IH]; simpl; [constructor|].
  destruct (keep x); now constructor.
Qed.

Lemma isProcessed_true (f : ProcessedFile Blob) :
  isProcessed f = true <-> status f = StatusProcessed.
Proof.
  unfold isProcessed. destruct (status f); simpl; split; congruence.
Qed.

(** C6, as the program has it.  [downloadAllAsZip] takes the items of the
    batch with status ['processed'], all of them and no other, in the order
    of the batch, reads the bytes of each and writes them to a fresh archive
    one after the other, each under its [newName].  Without such an item it
    returns at once and there is no archive.  With such items it offers an
    archive exactly when every read succeeds and the archive can be
    generated; the archive is then named after [uploadedZipName] with [.zip]
    added when that name is not empty, and 'bAV-Angebot.zip' when it is
    empty, as it is before any archive was submitted and after an archive
    whose name is only the extension.  When a read rejects or the archive
    cannot be generated the function ends with an alert and no archive. *)
Theorem downloadAllAsZip_packages_processed (st : AppState Blob) :
  let successfulFiles := filter isProcessed (files st) in
  let written :=
    fold_left
      (fun zip f => JSZip_file zip (newName f) (content (originalFile f)))
      successfulFiles JSZip_new in
  (forall f, In f successfulFiles <->
             In f (files st) /\ status f = StatusProcessed) /\
  Subsequence successfulFiles (files st) /\
  (successfulFiles = [] -> downloadAllAsZip st = NothingToPackage) /\
  (successfulFiles <> [] ->
   forall zipFileName zipBlob,
     downloadAllAsZip st = Download zipFileName zipBlob <->
     Forall (fun f => arrayBuffer (originalFile f) =
                      Some (content (originalFile f))) successfulFiles /\
     JSZip_generateAsync written = Some zipBlob /\
     zipFileName = match uploadedZipName st with
                   | [] => lit "bAV-Angebot.zip"
                   | _ :: _ => uploadedZipName st ++ lit ".zip"
                   end) /\
  (successfulFiles <> [] ->
   (downloadAllAsZip st = Alert <->
    (exists f, In f successfulFiles /\
               arrayBuffer (originalFile f) = None) \/
    JSZip_generateAsync written = None)).
Proof.
  intros successfulFiles written.
  assert (Hname : (if truthy (uploadedZipName st)
                   then uploadedZipName st ++ dotZip
                   else defaultZipFileName) =
                  match uploadedZipName st with
                  | [] => lit "bAV-Angebot.zip"
                  | _ :: _ => uploadedZipName st ++ lit ".zip"
                  end)
    by now destruct (uploadedZipName st).
  assert (Hrun : successfulFiles <> [] ->
                 downloadAllAsZip st =
                 match addAll successfulFiles JSZip_new with
                 | Some zip =>
                     match JSZip_generateAsync zip with
                     | Some zipBlob =>
                         Download (match uploadedZipName st with
                                   | [] => lit "bAV-Angebot.zip"
                                   | _ :: _ => uploadedZipName st ++ lit ".zip"
                                   end) zipBlob
                     | None => Alert
                     end
                 | None => Alert
                 end).
  { intros Hne. unfold downloadAllAsZip. fold successfulFiles.
    destruct successfulFiles as [|f rest]; [contradiction|].
    cbn [length Nat.eqb]. now rewrite Hname. }
  split; [|split; [|split; [|split]]].
  - intros f. unfold successfulFiles.
    rewrite filter_In, isProcessed_true. reflexivity.
  - apply filter_Subsequence.
  - intros E. unfold downloadAllAsZip. fold successfulFiles. now rewrite E.
  - intros Hne zipFileName zipBlob. rewrite (Hrun Hne). split.
    + destruct (addAll successfulFiles JSZip_new) as [zip|] eqn:Hadd;
        [|discriminate].
      apply addAll_Some in Hadd as [Hall ->]. fold written.
      destruct (JSZip_generateAsync written) as [blob|]; [|discriminate].
      intros [= <- <-]. repeat split. exact Hall.
    + intros (Hall & Hgen & ->).
      assert (Hadd : addAll successfulFiles JSZip_new = Some written)
        by (apply addAll_Some; split; [exact Hall|reflexivity]).
      now rewrite Hadd, Hgen.
  - intros Hne. rewrite (Hrun Hne). split.
    + destruct (addAll successfulFiles JSZip_new) as [zip|] eqn:Hadd.
      * apply addAll_Some in Hadd as [_ ->]. fold written.
        destruct (JSZip_generateAsync written); [discriminate|].
        intros _. now right.
      * intros _. left. now apply addAll_None in Hadd.
    + intros [Hlost|Hgen].
      * apply addAll_None with (zip := JSZip_new) in Hlost. now rewrite Hlost.
      * destruct (addAll successfulFiles JSZip_new) as [zip|] eqn:Hadd;
          [|reflexivity].
        apply addAll_Some in Hadd as [_ ->]. fold written. now rewrite Hgen.
Qed.

(** C10.  The loop records the base name of an archive before it looks
    into the archive: after a submission the recorded name is the base name
    of its last archive whether that archive could be read or not and
    whether it held a PDF or not, in place of any name recorded before, and
    the next archive offered for download carries it. *)
Theorem archive_name_recorded_before_extraction (st : AppState Blob)
    (before after : list (File Blob)) (file : File Blob) :
  classify file = Archive ->
  archivesOf after = [] ->
  let st' := handleFiles st (before ++ file :: after) in
  uploadedZipName st' = replaceAtEndCI dotZip (name file) /\
  forall zipFileName zipBlob,
    downloadAllAsZip st' = Download zipFileName zipBlob ->
    replaceAtEndCI dotZip (name file) <> [] ->
    zipFileName = replaceAtEndCI dotZip (name file) ++ lit ".zip".
Proof.
  intros Hc Hafter st'.
  assert (Hname : uploadedZipName st' = replaceAtEndCI dotZip (name file)).
  { unfold st'. rewrite handleFiles_uploadedZipName.
    unfold archivesOf in *. rewrite filter_app. simpl.
    unfold isArchive at 2. rewrite Hc, Hafter.
    rewrite map_app, last_app_default. reflexivity. }
  split; [exact Hname|].
  intros zipFileName zipBlob Hd Hne.
  apply downloadAllAsZip_name in Hd. rewrite Hname in Hd.
  destruct (replaceAtEndCI dotZip (name file)); [contradiction|exact Hd].
Qed.

Lemma handleAll_uploadedZipName (submissions : list (list (File Blob)))
    (st : AppState Blob) :
  uploadedZipName (handleAll st submissions) =
  last (map zipNameOf (archivesOf (concat submissions))) (uploadedZipName st).
Proof.
  unfold handleAll.
  revert st; induction submissions as [|fileList rest IH]; intros st; simpl.
  - reflexivity.
  - rewrite IH, handleFiles_uploadedZipName.
    unfold archivesOf. now rewrite filter_app, map_app, last_app_default.
Qed.

(** C1, as the program has it.  After any sequence of submissions the
    recorded archive name is the base name, extension taken off, of the
    last archive among all inputs in the order they were given; each
    archive replaces the name recorded before it.  Without any archive the
    recorded name is what it was. *)
Theorem last_archive_names_the_batch (st : AppState Blob)
    (submissions : list (list (File Blob))) :
  (forall earlier file,
     archivesOf (concat submissions) = earlier ++ [file] ->
     uploadedZipName (handleAll st submissions) =
     replaceAtEndCI dotZip (name file)) /\
  (archivesOf (concat submissions) = [] ->
   uploadedZipName (handleAll st submissions) = uploadedZipName st).
Proof.
  rewrite handleAll_uploadedZipName. split.
  - intros earlier file ->. rewrite map_app, last_app_default. reflexivity.
  - now intros ->.
Qed.

End PipelineFacts.

(* ================================================================== *)
(** ** Assignment to an object *)

Section Assign.

Variable V : Type.

Implicit Types (o : list (jsstring * V)) (k : jsstring) (v : V).

Lemma assign_keys o k v k' :
  In k' (map fst (assign o k v)) <-> k' = k \/ In k' (map fst o).
Proof.
  induction o as [|[k0 v0] o IH]; simpl.
  - intuition.
  - destruct (eqb k0 k) eqn:E; simpl.
    + apply eqb_eq in E. subst. intuition.
    + rewrite IH. intuition.
Qed.

Lemma assign_NoDup o k v :
  NoDup (map fst o) -> NoDup (map fst (assign o k v)).
Proof.
  induction o as [|[k0 v0] o IH]; simpl; intros Hnd.
  - constructor; [intros []|constructor].
  - inversion Hnd as [|? ? Hnotin Hrest]; subst.
    destruct (eqb k0 k) eqn:E; simpl.
    + apply eqb_eq in E. subst. now constructor.
    + apply eqb_neq in E. constructor; [|now apply IH].
      rewrite assign_keys. intros [->|Hin]; [now apply E|contradiction].
Qed.

Lemma assign_In_new o k v : In (k, v) (assign o k v).
Proof.
  induction o as [|[k0 v0] o IH]; simpl; [now left|].
  destruct (eqb k0 k); [now left|now right].
Qed.

Lemma assign_In_other o k v k' v' :
  k' <> k -> In (k', v') o -> In (k', v') (assign o k v).
Proof.
  intros Hne. induction o as [|[k0 v0] o IH]; simpl; [intros []|].
  intros [E|Hin].
  - inversion E; subst. destruct (eqb k' k) eqn:Ek.
    + apply eqb_eq in Ek. contradiction.
    + now left.
  - destruct (eqb k0 k); right; auto.
Qed.

Lemma assign_In_inv o k v k' v' :
  NoDup (map fst o) ->
  In (k', v') (assign o k v) ->
  (k' = k /\ v' = v) \/ (k' <> k /\ In (k', v') o).
Proof.
  induction o as [|[k0 v0] o IH]; simpl; intros Hnd Hin.
  - destruct Hin as [E|[]]. inversion E. now left.
  - inversion Hnd as [|? ? Hnotin Hrest]; subst.
    destruct (eqb k0 k) eqn:Ek.
    + apply eqb_eq in Ek. subst k0.
      destruct Hin as [E|Hin]; [inversion E; now left|].
      right. split; [|now right].
      intros ->. apply Hnotin. now apply (in_map fst) in Hin.
    + apply eqb_neq in Ek. destruct Hin as [E|Hin].
      * inversion E; subst. right. split; [exact Ek|now left].
      * destruct (IH Hrest Hin) as [?|[? ?]]; [now left|].
        right. split; [assumption|now right].
Qed.

Lemma assignAll_NoDup (writes : list (jsstring * V)) o :
  NoDup (map fst o) -> NoDup (map fst (assignAll writes o)).
Proof.
  revert o; induction writes as [|w writes IH]; intros o Hnd; simpl.
  - exact Hnd.
  - apply IH. now apply assign_NoDup.
Qed.

Lemma assignAll_keys (writes : list (jsstring * V)) o k :
  In k (map fst (assignAll writes o)) <->
  In k (map fst writes) \/ In k (map fst o).
Proof.
  revert o; induction writes as [|w writes IH]; intros o; simpl.
  - intuition.
  - change (assignAll (w :: writes) o)
      with (assignAll writes (assign o (fst w) (snd w))).
    rewrite IH, assign_keys. intuition.
Qed.

Lemma assignAll_keeps (writes : list (jsstring * V)) o k v :
  ~ In k (map fst writes) -> In (k, v) o -> In (k, v) (assignAll writes o).
Proof.
  revert o; induction writes as [|w writes IH]; intros o Hnot Hin; simpl.
  - exact Hin.
  - simpl in Hnot. apply IH; [tauto|].
    apply assign_In_other; [|exact Hin]. intros E. apply Hnot. now left.
Qed.

(** The last write under a key is what the object holds under it. *)
Lemma assignAll_last_write (earlier later : list (jsstring * V)) o k v :
  ~ In k (map fst later) ->
  In (k, v) (assignAll (earlier ++ (k, v) :: later) o).
Proof.
  intros Hnot. unfold assignAll. rewrite fold_left_app. simpl.
  apply assignAll_keeps; [exact Hnot|]. apply assign_In_new.
Qed.

(** And what the object holds under a key is the last write under it, or
    what it held before when the key was never written. *)
Lemma assignAll_In_inv (writes : list (jsstring * V)) o k v :
  NoDup (map fst o) ->
  In (k, v) (assignAll writes o) ->
  (exists earlier later,
      writes = earlier ++ (k, v) :: later /\ ~ In k (map fst later)) \/
  (In (k, v) o /\ ~ In k (map fst writes)).
Proof.
  revert o; induction writes as [|[k0 v0] writes IH]; intros o Hnd Hin.
  - right. split; [exact Hin|intros []].
  - simpl in Hin.
    destruct (IH _ (@assign_NoDup o k0 v0 Hnd) Hin)
      as [(earlier & later & -> & Hnot)|[Hin' Hnot]].
    + left. exists ((k0, v0) :: earlier), later. split; [reflexivity|exact Hnot].
    + destruct (@assign_In_inv o k0 v0 k v Hnd Hin') as [[-> ->]|[Hne Hold]].
      * left. exists [], writes. split; [reflexivity|exact Hnot].
      * right. split; [exact Hold|]. simpl. intros [E|H]; auto.
Qed.

End Assign.

Lemma assign_map_values {V W : Type} (g : V -> W) (o : list (jsstring * V))
    (k : jsstring) (v : V) :
  assign (map (fun e => (fst e, g (snd e))) o) k (g v) =
  map (fun e => (fst e, g (snd e))) (assign o k v).
Proof.
  induction o as [|[k0 v0] o IH]; simpl; [reflexivity|].
  destruct (eqb k0 k); simpl; [reflexivity|]. now rewrite IH.
Qed.

Lemma assignAll_map_values {V W : Type} (g : V -> W)
    (writes o : list (jsstring * V)) :
  assignAll (map (fun e => (fst e, g (snd e))) writes)
            (map (fun e => (fst e, g (snd e))) o) =
  map (fun e => (fst e, g (snd e))) (assignAll writes o).
Proof.
  revert o; induction writes as [|[k v] writes IH]; intros o; simpl.
  - reflexivity.
  - rewrite assign_map_values. apply IH.
Qed.

(* ================================================================== *)
(** ** Packaging and reading back *)

Section RoundTrip.

Context {Blob : Type} {zipLib : JSZipAPI Blob} {fileLib : FileAPI Blob}.

Lemma endsWith_lowered_pdf (stem : jsstring) :
  endsWith dotPdf (toLowerCase (stem ++ dotPdf)) = true.
Proof.
  rewrite toLowerCase_app.
  change (toLowerCase dotPdf) with dotPdf. apply endsWith_app.
Qed.

(** An item the normalizer accepted has a [newName] that ends in [.pdf]. *)
Lemma processedFileOf_named (file : File Blob) :
  isProcessed (processedFileOf file) = true ->
  endsWith dotPdf (toLowerCase (newName (processedFileOf file))) = true.
Proof.
  unfold isProcessed, processedFileOf. simpl.
  destruct (processFileName_cases (name file))
    as [[_ E]|[[_ [_ E]]|[[_ [_ [_ [_ E]]]]|[_ [_ [_ E]]]]]];
    rewrite E; simpl; try discriminate.
  intros _. apply endsWith_lowered_pdf.
Qed.

Lemma itemsOf_named (file : File Blob) (f : ProcessedFile Blob) :
  In f (itemsOf file) ->
  isProcessed f = true ->
  endsWith dotPdf (toLowerCase (newName f)) = true.
Proof.
  destruct (classify file) eqn:Hc.
  - rewrite (itemsOf_archive _ Hc).
    destruct (extractPDFsFromZip file) as [[|pdf pdfFiles]|].
    + intros [<-|[]]. discriminate.
    + intros Hin. apply in_map_iff in Hin as (x & <- & _).
      apply processedFileOf_named.
    + intros [<-|[]]. discriminate.
  - rewrite (itemsOf_loosePdf _ Hc). intros [<-|[]].
    apply processedFileOf_named.
  - rewrite (itemsOf_ignored _ Hc). intros [].
Qed.

Lemma removeFile_In (st : AppState Blob) (index : nat) (f : ProcessedFile Blob) :
  In f (files (removeFile st index)) -> In f (files st).
Proof.
  unfold removeFile. simpl. intros Hin.
  apply in_map_iff in Hin as ([i g] & <- & Hin).
  apply filter_In in Hin as [Hin _]. now apply in_combine_r in Hin.
Qed.

(** In every state of a session, the items with status ['processed'] have
    a [newName] that ends in [.pdf]. *)
Lemma Reachable_named (st : AppState Blob) :
  Reachable st ->
  forall f, In f (files st) -> isProcessed f = true ->
            endsWith dotPdf (toLowerCase (newName f)) = true.
Proof.
  induction 1 as [|st fileList _ IH|st index _ IH|st _ IH]; intros f Hin Hp.
  - destruct Hin.
  - rewrite handleFiles_files in Hin. apply in_app_or in Hin as [Hin|Hin].
    + now apply IH.
    + apply in_flat_map in Hin as (file & _ & Hin).
      now apply (itemsOf_named file).
  - apply IH; [|exact Hp]. now apply removeFile_In in Hin.
  - destruct Hin.
Qed.

(** When every PDF entry of an archive is readable, the reader returns
    one file per PDF entry, in the order of the entries. *)
Lemma extractLoop_readable (entries : list (jsstring * ZipObject Blob))
    (ws : list (jsstring * Blob)) (pdfFiles : list (File Blob)) :
  pdfEntries entries = map (fun w => (fst w, Some (snd w))) ws ->
  extractLoop entries pdfFiles = Some (pdfFiles ++ map fileOfEntry ws).
Proof.
  revert ws pdfFiles.
  induction entries as [|[filename file] rest IH]; intros ws pdfFiles H.
  - destruct ws; [|discriminate]. simpl. now rewrite app_nil_r.
  - unfold pdfEntries in H. simpl in H. simpl.
    unfold isPdfEntry in H. simpl in H.
    destruct (negb (dir file) && endsWith dotPdf (toLowerCase filename)).
    + destruct ws as [|[k b] ws]; [discriminate|].
      simpl in H. inversion H as [[Hk Hb Hrest]]. rewrite Hb.
      rewrite (IH ws _ Hrest). simpl. now rewrite <- app_assoc.
    + now apply IH.
Qed.

Lemma fold_left_writes (l : list (ProcessedFile Blob)) (zip : JSZip) :
  fold_left
    (fun zip f => JSZip_file zip (newName f) (content (originalFile f)))
    l zip =
  fold_left (fun zip w => JSZip_file zip (fst w) (snd w)) (map writeOf l) zip.
Proof.
  revert zip; induction l as [|f l IH]; intros zip; simpl; [reflexivity|].
  apply IH.
Qed.

Context {keepsName : jsstring -> Prop} {laws : JSZipLaws zipLib keepsName}.

(** C8, as the program has it.  In any state of a session in which the
    new name of every item with status ['processed'] is a name the archive
    library keeps, when [downloadAllAsZip] offers an archive and that
    archive is read back with [extractPDFsFromZip], the reading succeeds and
    returns files with pairwise distinct names; the names are exactly the
    [newName]s of the items with status ['processed']; each file has the
    name and the bytes of an item with status ['processed'], the last one in
    the batch with that [newName]; and every such item has its file. *)
Theorem package_then_extract (st : AppState Blob)
    (zipFileName : jsstring) (zipBlob : Blob) (uploaded : File Blob) :
  Reachable st ->
  (forall f, In f (files st) -> status f = StatusProcessed ->
             keepsName (newName f)) ->
  downloadAllAsZip st = Download zipFileName zipBlob ->
  content uploaded = zipBlob ->
  exists pdfFiles,
    extractPDFsFromZip uploaded = Some pdfFiles /\
    NoDup (map (@name Blob) pdfFiles) /\
    (forall n, In n (map (@name Blob) pdfFiles) <->
               exists f, In f (files st) /\ status f = StatusProcessed /\
                         newName f = n) /\
    (forall e, In e pdfFiles ->
               exists earlier f later,
                 filter isProcessed (files st) = earlier ++ f :: later /\
                 (forall g, In g later -> newName g <> newName f) /\
                 name e = newName f /\
                 content e = content (originalFile f)) /\
    (forall earlier f later,
       filter isProcessed (files st) = earlier ++ f :: later ->
       (forall g, In g later -> newName g <> newName f) ->
       exists e, In e pdfFiles /\ name e = newName f /\
                 content e = content (originalFile f)).
Proof.
  intros Hreach Hkept Hd Hup.
  set (sel := filter isProcessed (files st)) in *.
  assert (Hnamed : forall f, In f sel ->
            endsWith dotPdf (toLowerCase (newName f)) = true /\
            keepsName (newName f)).
  { intros f Hin. apply filter_In in Hin as [Hin Hp]. split.
    - now apply (Reachable_named Hreach).
    - apply Hkept; [exact Hin|now apply isProcessed_true]. }
  unfold downloadAllAsZip in Hd. fold sel in Hd.
  destruct (length sel =? 0); [discriminate|].
  destruct (addAll sel JSZip_new) as [zip|] eqn:Hadd; [|discriminate].
  apply addAll_Some in Hadd as [_ ->]. rewrite fold_left_writes in Hd.
  destruct (JSZip_generateAsync _) as [blob|] eqn:Hgen; [|discriminate].
  injection Hd as _ Hblob. subst blob.
  destruct (@JSZip_written_archive_loads Blob zipLib keepsName laws
              (map writeOf sel) zipBlob)
    as (zip' & Hload & Hentries).
  { intros w Hw. apply in_map_iff in Hw as (f & <- & Hf).
    now apply Hnamed. }
  { exact Hgen. }
  set (obj := assignAll (map writeOf sel) []) in *.
  exists (map fileOfEntry obj).
  assert (Hnames : map (@name Blob) (map fileOfEntry obj) = map fst obj).
  { rewrite map_map. reflexivity. }
  assert (Hkeys : forall l : list (ProcessedFile Blob),
            map fst (map writeOf l) = map (@newName Blob) l).
  { intros l. rewrite map_map. reflexivity. }
  split; [|split; [|split; [|split]]].
  - unfold extractPDFsFromZip. rewrite Hup, Hload.
    apply (extractLoop_readable _ obj [] Hentries).
  - rewrite Hnames. apply assignAll_NoDup. constructor.
  - intros n. rewrite Hnames. unfold obj.
    rewrite assignAll_keys, Hkeys. simpl. split.
    + intros [Hin|[]]. apply in_map_iff in Hin as (f & <- & Hin).
      apply filter_In in Hin as [Hin Hp]. exists f.
      repeat split; [exact Hin|now apply isProcessed_true].
    + intros (f & Hin & Hs & <-). left. apply in_map. apply filter_In.
      split; [exact Hin|now apply isProcessed_true].
  - intros e Hin. apply in_map_iff in Hin as ([k b] & <- & Hin).
    apply assignAll_In_inv in Hin; [|constructor].
    destruct Hin as [(ws1 & ws2 & Hsplit & Hnot)|[[] _]].
    apply map_eq_app in Hsplit as (earlier & rest & Hsel & <- & Hrest).
    destruct rest as [|f later]; [discriminate|].
    simpl in Hrest. injection Hrest as Hk Hb <-.
    exists earlier, f, later. repeat split; auto.
    intros g Hg E. apply Hnot. rewrite Hkeys, <- Hk, <- E. now apply in_map.
  - intros earlier f later Hsel Hlast.
    exists (fileOfEntry (writeOf f)). repeat split.
    apply in_map. unfold obj. rewrite Hsel, map_app. simpl.
    apply assignAll_last_write. rewrite Hkeys. intros Hin.
    apply in_map_iff in Hin as (g & E & Hg). now apply (Hlast g Hg).
Qed.

End RoundTrip.

(* ================================================================== *)
(** ** The pipeline on concrete inputs *)

Lemma assign_fresh {V : Type} (o : list (jsstring * V)) (k : jsstring) (v : V) :
  ~ In k (map fst o) -> assign o k v = o ++ [(k, v)].
Proof.
  induction o as [|[k0 v0] o IH]; simpl; intros Hnot; [reflexivity|].
  destruct (eqb k0 k) eqn:E.
  - apply eqb_eq in E. exfalso. apply Hnot. now left.
  - rewrite IH; [reflexivity|]. intros Hin. apply Hnot. now right.
Qed.

(** Writing keys that are new and pairwise distinct appends them. *)
Lemma assignAll_fresh {V : Type} (l o : list (jsstring * V)) :
  NoDup (map fst l) ->
  (forall k, In k (map fst l) -> ~ In k (map fst o)) ->
  assignAll l o = o ++ l.
Proof.
  revert o; induction l as [|[k v] l IH]; intros o Hnd Hnew; simpl.
  - now rewrite app_nil_r.
  - inversion Hnd as [|? ? Hk Hl]; subst.
    rewrite assign_fresh by (apply Hnew; now left).
    change (fold_left (fun o w => assign o (fst w) (snd w)) l (o ++ [(k, v)]))
      with (assignAll l (o ++ [(k, v)])).
    rewrite IH; [now rewrite <- app_assoc|exact Hl|].
    intros k' Hin. rewrite map_app, in_app_iff. simpl.
    intros [Ho|[E|[]]].
    + apply (Hnew k'); [now right|exact Ho].
    + subst k'. contradiction.
Qed.

Lemma pdfEntries_wrapped (l : list (jsstring * MemBlob)) :
  (forall e, In e l -> endsWith dotPdf (toLowerCase (fst e)) = true) ->
  pdfEntries (map (fun e => (fst e, {| dir := false; async := Some (snd e) |}))
                  l) = map readable l.
Proof.
  induction l as [|e l IH]; intros Hpdf; [reflexivity|].
  unfold pdfEntries in *. simpl. unfold isPdfEntry at 1. simpl.
  rewrite (Hpdf e) by now left. simpl. f_equal.
  apply IH. intros e' He'. apply Hpdf. now right.
Qed.

Lemma written_keys {V : Type} (P : jsstring -> Prop)
    (writes : list (jsstring * V)) :
  (forall w, In w writes -> P (fst w)) ->
  forall e, In e (assignAll writes []) -> P (fst e).
Proof.
  intros HP e He. apply (in_map fst) in He.
  apply assignAll_keys in He as [He|[]].
  apply in_map_iff in He as (w & <- & Hw). now apply HP.
Qed.

(** The first archive library in memory keeps every name. *)
#[export] Instance memZipLaws : JSZipLaws memZip (fun _ => True).
Proof.
  constructor. intros writes blob Hw Hgen.
  simpl in Hgen. injection Hgen as <-.
  exists (assignAll writes []). split; [reflexivity|].
  apply pdfEntries_wrapped.
  apply (written_keys
           (fun k => endsWith dotPdf (toLowerCase k) = true) writes).
  intros w Hin. now apply Hw.
Qed.

(** The library that resolves paths keeps the names that are their own
    resolved form. *)
Lemma resolvingZipLaws : JSZipLaws resolvingZip (fun n => resolve n = n).
Proof.
  constructor. intros writes blob Hw Hgen.
  simpl in Hgen. injection Hgen as <-.
  change (fold_left (fun zip w => assign zip (fst w) (snd w)) writes [])
    with (assignAll writes []).
  set (zip := assignAll writes []).
  assert (Hkept : map (fun e => (resolve (fst e), snd e)) zip = zip).
  { rewrite <- (map_id zip) at 2. apply map_ext_in. intros [k v] Hin.
    simpl. f_equal.
    apply (@written_keys MemBlob (fun k => resolve k = k) writes
             (fun w Hin' => proj2 (Hw w Hin')) (k, v) Hin). }
  exists zip. split.
  - simpl. rewrite Hkept. f_equal.
    rewrite assignAll_fresh; [reflexivity| |intros k _ []].
    apply assignAll_NoDup. constructor.
  - apply pdfEntries_wrapped.
    apply (written_keys
             (fun k => endsWith dotPdf (toLowerCase k) = true) writes).
    intros w Hin. now apply Hw.
Qed.

Example handleFiles_spec_archive :
  map (@originalName MemBlob) (files (handleFiles initialState [angebotZip])) =
  [lit "invoice.pdf"; lit "A_B_C_D_note.pdf"].
Proof. reflexivity. Qed.

(** C1 as the specification has it fails: with two archives in one
    submission, and with two archives in two submissions, the recorded name
    is the base name of the second archive and not of the first. *)
Lemma first_archive_does_not_name_the_batch :
  archivesOf [angebotZip; looseOk; zweitesZip] = [angebotZip; zweitesZip] /\
  replaceAtEndCI dotZip (name angebotZip) = lit "Angebot" /\
  uploadedZipName (handleFiles initialState [angebotZip; looseOk; zweitesZip])
    = lit "Zweites" /\
  uploadedZipName (handleFiles initialState [angebotZip; looseOk; zweitesZip])
    <> replaceAtEndCI dotZip (name angebotZip) /\
  uploadedZipName
    (handleFiles (handleFiles initialState [angebotZip]) [zweitesZip])
    <> replaceAtEndCI dotZip (name angebotZip).
Proof.
  repeat split; vm_compute; discriminate.
Qed.

Lemma last_archive_names_the_batch_witness :
  uploadedZipName
    (handleAll initialState [[angebotZip; looseOk]; [zweitesZip; looseBad]])
  = lit "Zweites".
Proof.
  apply (proj1 (last_archive_names_the_batch initialState
                  [[angebotZip; looseOk]; [zweitesZip; looseBad]])
               [angebotZip] zweitesZip).
  reflexivity.
Defined.

Lemma archive_errors_are_local_witness :
  files (handleFiles initialState ([looseOk] ++ kaputtZip :: [angebotZip])) =
  files initialState ++ flat_map itemsOf [looseOk]
    ++ [ {| originalFile := kaputtZip;
            originalName := name kaputtZip;
            newName := name kaputtZip;
            status := StatusError;
            errorMessage := Some msgZipUnreadable |} ]
    ++ flat_map itemsOf [angebotZip] /\
  files (handleFiles initialState ([looseOk] ++ leerZip :: [angebotZip])) =
  files initialState ++ flat_map itemsOf [looseOk]
    ++ [ {| originalFile := leerZip;
            originalName := name leerZip;
            newName := name leerZip;
            status := StatusError;
            errorMessage := Some msgNoPdfInZip |} ]
    ++ flat_map itemsOf [angebotZip].
Proof.
  split.
  - apply (proj1 (archive_errors_are_local initialState
                    [looseOk] [angebotZip] kaputtZip eq_refl)).
    reflexivity.
  - apply (proj2 (archive_errors_are_local (zipLib := memZip) initialState
                    [looseOk] [angebotZip] leerZip eq_refl)
                 [(lit "readme.txt", Raw [2%N])]).
    + reflexivity.
    + intros e [<-|[]]. reflexivity.
Defined.

Lemma downloadAllAsZip_packages_processed_witness :
  downloadAllAsZip (handleFiles initialState [angebotZip; looseBad; looseOk]) =
  Download (lit "Angebot.zip")
           (Packed [(lit "note.pdf", Raw [3%N]);
                    (lit "1)_Beratung.pdf", Raw [7%N; 7%N])]).
Proof.
  apply (proj1 (proj2 (proj2 (proj2
    (downloadAllAsZip_packages_processed
       (handleFiles initialState [angebotZip; looseBad; looseOk])))))).
  - vm_compute. discriminate.
  - split; [|split].
    + vm_compute. repeat constructor.
    + reflexivity.
    + reflexivity.
Defined.

(** C6 as the specification has it fails: after an archive named [.zip]
    was submitted, its base name, the empty string, is the recorded one,
    and the archive offered is named 'bAV-Angebot.zip', not after it. *)
Lemma empty_archive_name_is_not_used :
  archivesOf [nurEndungZip] = [nurEndungZip] /\
  uploadedZipName (handleFiles initialState [nurEndungZip]) =
    replaceAtEndCI dotZip (name nurEndungZip) /\
  downloadAllAsZip (handleFiles initialState [nurEndungZip]) =
    Download (lit "bAV-Angebot.zip") (Packed [(lit "note.pdf", Raw [3%N])]) /\
  lit "bAV-Angebot.zip" <>
    replaceAtEndCI dotZip (name nurEndungZip) ++ lit ".zip".
Proof.
  repeat split; vm_compute; discriminate.
Qed.

(** When a file of the selection can no longer be read, there is an alert
    and no archive. *)
Example downloadAllAsZip_lost_file :
  downloadAllAsZip (fileLib := lostFiles)
    (handleFiles initialState [looseOk; pdfFile "A_B_C_D_weg.pdf" []]) =
  Alert.
Proof. reflexivity. Qed.

Lemma zip_name_is_archive_witness :
  classify {| name := lit "Scan.ZiP"; type := applicationPdf;
              content := Raw [1%N] |} = Archive.
Proof.
  apply (proj1 (zip_name_is_archive
                  {| name := lit "Scan.ZiP"; type := applicationPdf;
                     content := Raw [1%N] |})).
  exists (lit "Scan"), 90%N, 105%N, 80%N.
  repeat split; auto.
Defined.

Lemma archive_name_recorded_before_extraction_witness :
  uploadedZipName
    (handleFiles (handleFiles initialState [angebotZip])
                 ([looseOk] ++ kaputtZip :: [looseBad]))
  = lit "Kaputt" /\
  forall zipFileName zipBlob,
    downloadAllAsZip
      (handleFiles (handleFiles initialState [angebotZip])
                   ([looseOk] ++ kaputtZip :: [looseBad]))
    = Download zipFileName zipBlob ->
    zipFileName = lit "Kaputt.zip".
Proof.
  pose proof (archive_name_recorded_before_extraction
                (handleFiles initialState [angebotZip])
                [looseOk] [looseBad] kaputtZip eq_refl eq_refl) as [Hn Hd].
  split; [exact Hn|].
  intros zipFileName zipBlob H. apply (Hd _ _ H). discriminate.
Defined.

Lemma package_then_extract_witness :
  exists pdfFiles,
    extractPDFsFromZip (zipLib := resolvingZip)
      (zipFile "Angebot.zip"
         (Packed [(lit "note.pdf", Raw [3%N]);
                  (lit "1)_Beratung.pdf", Raw [7%N; 7%N])]))
    = Some pdfFiles /\
    NoDup (map (@name MemBlob) pdfFiles).
Proof.
  destruct (@package_then_extract MemBlob resolvingZip memFiles
              (fun n => resolve n = n) resolvingZipLaws
              (handleFiles (zipLib := resolvingZip) initialState
                           [angebotZip; looseBad; looseOk])
              (lit "Angebot.zip")
              (Packed [(lit "note.pdf", Raw [3%N]);
                       (lit "1)_Beratung.pdf", Raw [7%N; 7%N])])
              (zipFile "Angebot.zip"
                 (Packed [(lit "note.pdf", Raw [3%N]);
                          (lit "1)_Beratung.pdf", Raw [7%N; 7%N])])))
    as (pdfFiles & Hx & Hnd & _).
  - apply Reachable_handleFiles, Reachable_initial.
  - intros f Hin Hs. vm_compute in Hin.
    destruct Hin as [<-|[<-|[<-|[<-|[]]]]];
      try discriminate Hs; vm_compute; reflexivity.
  - vm_compute. reflexivity.
  - reflexivity.
  - exists pdfFiles. split; assumption.
Defined.

(** C8 as the specification has it fails with a library that resolves
    paths on loading, as JSZip does: the PDF 'A_B_C_D_x/../y.pdf' is
    accepted with the new name 'x/../y.pdf' and packaged under it, and the
    archive read back holds one file, named 'y.pdf'. *)
Lemma resolved_path_breaks_round_trip :
  @Reachable MemBlob resolvingZip
    (handleFiles (zipLib := resolvingZip) initialState [pfadPdf]) /\
  map (fun f => (newName f, status f))
      (files (handleFiles (zipLib := resolvingZip) initialState [pfadPdf])) =
    [(lit "x/../y.pdf", StatusProcessed)] /\
  downloadAllAsZip (zipLib := resolvingZip)
    (handleFiles (zipLib := resolvingZip) initialState [pfadPdf]) =
    Download (lit "bAV-Angebot.zip")
             (Packed [(lit "x/../y.pdf", Raw [6%N])]) /\
  extractPDFsFromZip (zipLib := resolvingZip)
    (zipFile "bAV-Angebot.zip" (Packed [(lit "x/../y.pdf", Raw [6%N])])) =
    Some [ {| name := lit "y.pdf"; type := applicationPdf;
              content := Raw [6%N] |} ] /\
  lit "y.pdf" <> lit "x/../y.pdf".
Proof.
  split; [apply Reachable_handleFiles, Reachable_initial|].
  repeat split; vm_compute; discriminate.
Qed.

(* ================================================================== *)
(** ** More on the name normalizer *)

Lemma split_app_sep (sep : codeUnit) (a rest : jsstring) :
  ~ In sep a -> split sep (a ++ sep :: rest) = a :: split sep rest.
Proof.
  induction a as [|c a IH]; intros Hno; simpl.
  - now rewrite N.eqb_refl.
  - destruct (N.eqb_spec c sep) as [->|_].
    + exfalso. apply Hno. now left.
    + rewrite IH; [reflexivity|]. intros Hin. apply Hno. now right.
Qed.

(** No segment of a split holds the separator. *)
Lemma split_no_sep (sep : codeUnit) (s p : jsstring) :
  In p (split sep s) -> ~ In sep p.
Proof.
  revert p; induction s as [|c s IH]; intros p; simpl.
  - intros [<-|[]] [].
  - destruct (N.eqb_spec c sep) as [->|Hne].
    + intros [<-|Hin]; [intros []|now apply IH].
    + pose proof (split_not_nil sep s) as Hnil.
      destruct (split sep s) as [|q qs]; [contradiction|].
      intros [<-|Hin].
      * intros [E|Hin]; [now apply Hne|].
        apply (IH q); [now left|exact Hin].
      * apply IH. now right.
Qed.

Lemma fourFields_split (a b c d rest : jsstring) :
  noUnderscore a -> noUnderscore b -> noUnderscore c -> noUnderscore d ->
  split underscore (fourFields a b c d rest) =
  a :: b :: c :: d :: split underscore rest.
Proof.
  intros Ha Hb Hc Hd. unfold fourFields.
  now rewrite !split_app_sep.
Qed.

(** A name with four underscores or more is four fields and a rest. *)
Lemma fourFields_of_split (stem : jsstring) :
  5 <= length (split underscore stem) ->
  exists a b c d,
    noUnderscore a /\ noUnderscore b /\ noUnderscore c /\ noUnderscore d /\
    stem = fourFields a b c d
             (join [underscore] (slice 4 (split underscore stem))).
Proof.
  intros Hlen.
  pose proof (join_split underscore stem) as Hjoin.
  pose proof (@split_no_sep underscore stem) as Hno.
  destruct (split underscore stem) as [|a [|b [|c [|d [|e rest]]]]];
    simpl in Hlen; try lia.
  exists a, b, c, d.
  repeat split; try (apply Hno; simpl; tauto).
  rewrite <- Hjoin. unfold fourFields, slice. simpl. reflexivity.
Qed.

(** What the normalizer returns for four fields and a rest. *)
Lemma processFileName_fourFields (fileName a b c d rest : jsstring) :
  replaceAtEndCI dotPdf fileName = fourFields a b c d rest ->
  noUnderscore a -> noUnderscore b -> noUnderscore c -> noUnderscore d ->
  processFileName fileName =
  match rest with
  | [] => {| NameResult.newName := fileName;
             NameResult.error := Some msgEmptyResult |}
  | _ :: _ =>
      if startsWithNumber rest || startsWithWord rest
      then {| NameResult.newName := rest ++ dotPdf;
              NameResult.error := None |}
      else {| NameResult.newName := fileName;
              NameResult.error := Some msgUnexpectedFormat |}
  end.
Proof.
  intros Hstem Ha Hb Hc Hd.
  unfold processFileName. rewrite Hstem, fourFields_split by assumption.
  pose proof (split_not_nil underscore rest) as Hnil.
  pose proof (join_split underscore rest) as Hjoin.
  destruct (split underscore rest) as [|e more]; [contradiction|].
  cbn [length Nat.ltb Nat.leb slice skipn]. rewrite Hjoin.
  destruct rest as [|r rest]; [reflexivity|].
  cbn [truthy negb].
  destruct (startsWithNumber (r :: rest)), (startsWithWord (r :: rest));
    reflexivity.
Qed.

Lemma isDigit_spec (c : codeUnit) : isDigit c = true <-> digitUnit c.
Proof.
  unfold isDigit, digitUnit. now rewrite andb_true_iff, !N.leb_le.
Qed.

Lemma dropDigits_split (s : jsstring) :
  exists digits, Forall digitUnit digits /\ s = digits ++ dropDigits s.
Proof.
  induction s as [|c s (digits & Hd & Hs)]; simpl.
  - exists []. split; [constructor|reflexivity].
  - destruct (isDigit c) eqn:E.
    + exists (c :: digits). split.
      * constructor; [now apply isDigit_spec|exact Hd].
      * simpl. now f_equal.
    + exists []. split; [constructor|reflexivity].
Qed.

Lemma dropDigits_app (digits rest : jsstring) :
  Forall digitUnit digits ->
  dropDigits (digits ++ 41%N :: rest) = 41%N :: rest.
Proof.
  induction 1 as [|c digits Hc _ IH]; simpl.
  - reflexivity.
  - apply isDigit_spec in Hc. now rewrite Hc.
Qed.

(** [/^\d+\)/] holds of the names that begin with one or more digits and a
    closing parenthesis. *)
Lemma startsWithNumber_spec (s : jsstring) :
  startsWithNumber s = true <->
  exists digits rest,
    digits <> [] /\ Forall digitUnit digits /\ s = digits ++ 41%N :: rest.
Proof.
  split.
  - destruct s as [|c s]; simpl; [discriminate|].
    intros H. apply andb_true_iff in H as [Hc H].
    destruct (dropDigits_split s) as (digits & Hd & Hs).
    destruct (dropDigits s) as [|p rest]; [discriminate|].
    apply N.eqb_eq in H. subst p.
    exists (c :: digits), rest. split; [discriminate|]. split.
    + constructor; [now apply isDigit_spec|exact Hd].
    + simpl. now f_equal.
  - intros (digits & rest & Hne & Hd & ->).
    destruct digits as [|c digits]; [contradiction|].
    inversion Hd as [|? ? Hc Hd']; subst. simpl.
    apply isDigit_spec in Hc. rewrite Hc.
    now rewrite dropDigits_app.
Qed.

(** [/^[a-zA-ZäöüÄÖÜß]/] holds of the names that begin with a letter. *)
Lemma startsWithWord_spec (s : jsstring) :
  startsWithWord s = true <-> exists c rest, s = c :: rest /\ letterUnit c.
Proof.
  assert (Unit : forall c,
            isLower c || isUpper c || existsb (N.eqb c) germanLetters = true
            <-> letterUnit c).
  { intros c. unfold letterUnit, isLower, isUpper.
    rewrite !orb_true_iff, !andb_true_iff, !N.leb_le, existsb_exists.
    split.
    - intros [[H|H]|(x & Hin & E)]; auto.
      apply N.eqb_eq in E. subst x. auto.
    - intros [H|[H|H]]; auto.
      right. exists c. split; [exact H|apply N.eqb_refl]. }
  destruct s as [|c s]; simpl.
  - split; [discriminate|]. now intros (c & rest & E & _).
  - rewrite Unit. split.
    + intros H. now exists c, s.
    + intros (c' & rest & E & H). now inversion E; subst.
Qed.

Lemma goodStart_spec (s : jsstring) :
  startsWithNumber s || startsWithWord s = true <-> goodStart s.
Proof.
  unfold goodStart.
  rewrite orb_true_iff, startsWithNumber_spec, startsWithWord_spec. tauto.
Qed.

Lemma messages_differ :
  msgTooFewSeparators <> msgEmptyResult /\
  msgTooFewSeparators <> msgUnexpectedFormat /\
  msgEmptyResult <> msgUnexpectedFormat.
Proof.
  repeat split; intros E; apply (f_equal (@length codeUnit)) in E;
    vm_compute in E; discriminate.
Qed.

(** X1.  A file name that, without its trailing [.pdf], is four fields
    free of underscores, each followed by an underscore, and a rest that
    begins with a letter or with digits and a closing parenthesis, is
    accepted, and the new name is the rest with [.pdf]: underscores in the
    rest are kept. *)
Theorem processFileName_accepts_fourFields
    (fileName a b c d rest : jsstring) :
  replaceAtEndCI dotPdf fileName = fourFields a b c d rest ->
  noUnderscore a -> noUnderscore b -> noUnderscore c -> noUnderscore d ->
  goodStart rest ->
  processFileName fileName =
  {| NameResult.newName := rest ++ lit ".pdf"; NameResult.error := None |}.
Proof.
  intros Hstem Ha Hb Hc Hd Hgood.
  rewrite (@processFileName_fourFields fileName a b c d rest Hstem Ha Hb Hc Hd).
  apply goodStart_spec in Hgood. rewrite Hgood.
  destruct rest as [|r rest]; [discriminate|reflexivity].
Qed.

Lemma processFileName_accepts_fourFields_witness :
  processFileName (lit "Max_Mustermann_01.01.2024_1500,00_12)_Anlage_A.PDF") =
  {| NameResult.newName := lit "12)_Anlage_A" ++ lit ".pdf";
     NameResult.error := None |}.
Proof.
  apply (@processFileName_accepts_fourFields
           (lit "Max_Mustermann_01.01.2024_1500,00_12)_Anlage_A.PDF")
           (lit "Max") (lit "Mustermann") (lit "01.01.2024") (lit "1500,00")
           (lit "12)_Anlage_A")).
  - reflexivity.
  - vm_compute. intuition discriminate.
  - vm_compute. intuition discriminate.
  - vm_compute. intuition discriminate.
  - vm_compute. intuition discriminate.
  - right. exists (lit "12"), (lit "_Anlage_A").
    split; [discriminate|]. split; [|reflexivity].
    repeat constructor; vm_compute; discriminate.
Defined.

(** X2.  Whenever the normalizer accepts a file name, the name without
    its trailing [.pdf] is four fields free of underscores and a rest, the
    rest begins with a letter or with digits and a closing parenthesis, and
    the new name is that rest with [.pdf]: nothing but the four fields, their
    underscores and the extension is taken away. *)
Theorem processFileName_accepted_shape (fileName : jsstring) :
  NameResult.error (processFileName fileName) = None ->
  exists a b c d rest,
    noUnderscore a /\ noUnderscore b /\ noUnderscore c /\ noUnderscore d /\
    replaceAtEndCI dotPdf fileName = fourFields a b c d rest /\
    goodStart rest /\
    NameResult.newName (processFileName fileName) = rest ++ lit ".pdf".
Proof.
  intros Hacc.
  destruct (processFileName_cases fileName)
    as [[_ E]|[[_ [_ E]]|[[_ [_ [_ [_ E]]]]|[Hlen [_ [Hstart E]]]]]];
    rewrite E in Hacc |- *; simpl in *; try discriminate.
  destruct (@fourFields_of_split _ Hlen) as (a & b & c & d & Ha & Hb & Hc & Hd & Hs).
  exists a, b, c, d, (join [underscore]
                        (slice 4 (split underscore
                                    (replaceAtEndCI dotPdf fileName)))).
  repeat split; try assumption.
  - apply goodStart_spec. apply orb_true_iff. exact Hstart.
Qed.

Lemma processFileName_accepted_shape_witness :
  exists a b c d rest,
    noUnderscore a /\ noUnderscore b /\ noUnderscore c /\ noUnderscore d /\
    replaceAtEndCI dotPdf (lit "A_B_C_D_Vertrag_neu.pdf")
      = fourFields a b c d rest /\
    goodStart rest /\
    NameResult.newName (processFileName (lit "A_B_C_D_Vertrag_neu.pdf"))
      = rest ++ lit ".pdf".
Proof.
  apply (processFileName_accepted_shape (lit "A_B_C_D_Vertrag_neu.pdf")).
  reflexivity.
Defined.

(** X3.  Each of the three rejections has its exact condition on the name
    without its trailing [.pdf]: too few separators, fewer than four
    underscores; empty result, four fields and nothing after the fourth
    underscore; unexpected format, four fields and a rest that is not empty
    and begins neither with a letter nor with digits and a closing
    parenthesis. *)
Theorem processFileName_rejections_exact (fileName : jsstring) :
  (NameResult.error (processFileName fileName) = Some msgTooFewSeparators <->
   count_occ N.eq_dec (replaceAtEndCI dotPdf fileName) underscore < 4) /\
  (NameResult.error (processFileName fileName) = Some msgEmptyResult <->
   exists a b c d,
     noUnderscore a /\ noUnderscore b /\ noUnderscore c /\ noUnderscore d /\
     replaceAtEndCI dotPdf fileName = fourFields a b c d []) /\
  (NameResult.error (processFileName fileName) = Some msgUnexpectedFormat <->
   exists a b c d rest,
     noUnderscore a /\ noUnderscore b /\ noUnderscore c /\ noUnderscore d /\
     replaceAtEndCI dotPdf fileName = fourFields a b c d rest /\
     rest <> [] /\ ~ goodStart rest).
Proof.
  destruct messages_differ as (D12 & D13 & D23).
  pose proof (split_length underscore (replaceAtEndCI dotPdf fileName)) as Hlen.
  split; [|split].
  - split.
    + intros Herr.
      destruct (processFileName_cases fileName)
        as [[Hlt _]|[[_ [_ E]]|[[_ [_ [_ [_ E]]]]|[_ [_ [_ E]]]]]];
        [lia| | |]; rewrite E in Herr; simpl in Herr; congruence.
    + intros Hcount.
      destruct (processFileName_cases fileName)
        as [[_ E]|[[Hge _]|[[Hge _]|[Hge _]]]]; try lia.
      now rewrite E.
  - split.
    + intros Herr.
      destruct (processFileName_cases fileName)
        as [[_ E]|[[Hge [Hempty _]]|[[_ [_ [_ [_ E]]]]|[_ [_ [_ E]]]]]].
      * rewrite E in Herr; simpl in Herr; congruence.
      * destruct (@fourFields_of_split _ Hge)
          as (a & b & c & d & Ha & Hb & Hc & Hd & Hs).
        rewrite Hempty in Hs. exists a, b, c, d. tauto.
      * rewrite E in Herr; simpl in Herr; congruence.
      * rewrite E in Herr; simpl in Herr; congruence.
    + intros (a & b & c & d & Ha & Hb & Hc & Hd & Hs).
      now rewrite (@processFileName_fourFields fileName a b c d [] Hs Ha Hb Hc Hd).
  - split.
    + intros Herr.
      destruct (processFileName_cases fileName)
        as [[_ E]|[[_ [_ E]]|[[Hge [Hne [Hn [Hw _]]]]|[_ [_ [_ E]]]]]].
      * rewrite E in Herr; simpl in Herr; congruence.
      * rewrite E in Herr; simpl in Herr; congruence.
      * destruct (@fourFields_of_split _ Hge)
          as (a & b & c & d & Ha & Hb & Hc & Hd & Hs).
        exists a, b, c, d, (join [underscore]
                              (slice 4 (split underscore
                                          (replaceAtEndCI dotPdf fileName)))).
        repeat split; try assumption.
        intros Hgood. apply goodStart_spec in Hgood.
        rewrite Hn, Hw in Hgood. discriminate.
      * rewrite E in Herr; simpl in Herr; congruence.
    + intros (a & b & c & d & rest & Ha & Hb & Hc & Hd & Hs & Hne & Hbad).
      rewrite (@processFileName_fourFields fileName a b c d rest Hs Ha Hb Hc Hd).
      destruct rest as [|r rest]; [contradiction|].
      destruct (startsWithNumber (r :: rest) || startsWithWord (r :: rest))
        eqn:Hstart; [|reflexivity].
      exfalso. apply Hbad. now apply goodStart_spec.
Qed.

Lemma processFileName_rejections_exact_witness :
  NameResult.error (processFileName (lit "a_b_c.pdf"))
  = Some msgTooFewSeparators.
Proof.
  apply (proj1 (processFileName_rejections_exact (lit "a_b_c.pdf"))).
  vm_compute. lia.
Defined.

(** The verdict and the accepted name only depend on the name without its
    trailing [.pdf]. *)
Lemma processFileName_same_stem (fileName fileName' : jsstring) :
  replaceAtEndCI dotPdf fileName = replaceAtEndCI dotPdf fileName' ->
  NameResult.error (processFileName fileName) =
  NameResult.error (processFileName fileName') /\
  (NameResult.error (processFileName fileName) = None ->
   NameResult.newName (processFileName fileName) =
   NameResult.newName (processFileName fileName')).
Proof.
  intros Hstem. unfold processFileName. rewrite Hstem.
  destruct (length _ <? 5); simpl; [split; [reflexivity|discriminate]|].
  destruct (truthy _); simpl; [|split; [reflexivity|discriminate]].
  destruct (negb _ && negb _); simpl; split; try reflexivity; discriminate.
Qed.

(** X4.  The case of the extension does not matter, and neither does its
    absence: a name with [.pdf] in any case, and the same name without
    extension when what is left does not itself end in [.pdf], get the same
    verdict and, when accepted, the same new name. *)
Theorem processFileName_extension_irrelevant (stem ext ext' : jsstring) :
  eqbCI ext (lit ".pdf") = true ->
  eqbCI ext' (lit ".pdf") = true \/
  (ext' = [] /\ matchesAtEndCI (lit ".pdf") stem = false) ->
  NameResult.error (processFileName (stem ++ ext)) =
  NameResult.error (processFileName (stem ++ ext')) /\
  (NameResult.error (processFileName (stem ++ ext)) = None ->
   NameResult.newName (processFileName (stem ++ ext)) =
   NameResult.newName (processFileName (stem ++ ext'))).
Proof.
  intros Hext Hext'. apply processFileName_same_stem.
  rewrite (@replaceAtEndCI_app dotPdf ext stem Hext).
  destruct Hext' as [Hext'|[-> Hno]].
  - now rewrite (@replaceAtEndCI_app dotPdf ext' stem Hext').
  - rewrite app_nil_r. symmetry. now apply replaceAtEndCI_no_match.
Qed.

Lemma processFileName_extension_irrelevant_witness :
  NameResult.newName (processFileName (lit "A_B_C_D_Police" ++ lit ".PdF")) =
  NameResult.newName (processFileName (lit "A_B_C_D_Police" ++ [])).
Proof.
  apply (@processFileName_extension_irrelevant
           (lit "A_B_C_D_Police") (lit ".PdF") []).
  - reflexivity.
  - right. split; reflexivity.
  - reflexivity.
Defined.

(* ================================================================== *)
(** ** More on the submission loop *)

Lemma lowerUnit_dot (c : codeUnit) : lowerUnit c = 46%N <-> c = 46%N.
Proof.
  unfold lowerUnit, isUpper.
  destruct (N.leb_spec 65 c), (N.leb_spec c 90); simpl; lia.
Qed.

Lemma lowerUnit_letter (c l : codeUnit) :
  (97 <= l /\ l <= 122)%N ->
  lowerUnit c = l <-> c = l \/ (c + 32 = l)%N.
Proof.
  unfold lowerUnit, isUpper. intros Hl.
  destruct (N.leb_spec 65 c), (N.leb_spec c 90); simpl; lia.
Qed.

Lemma canonicalize_lowerUnit (c l : codeUnit) :
  lowerUnit c = l -> canonicalize c = canonicalize l.
Proof.
  unfold lowerUnit, canonicalize, isUpper, isLower. intros <-.
  destruct (N.leb_spec 65 c), (N.leb_spec c 90); simpl;
    repeat match goal with
           | |- context [N.leb ?x ?y] => destruct (N.leb_spec x y)
           end; simpl; lia.
Qed.

(** The suffix test on the lowered name, unit by unit. *)
Lemma endsWith_lowered (k1 k2 k3 k4 : codeUnit) (s : jsstring) :
  endsWith [k1; k2; k3; k4] (toLowerCase s) = true <->
  exists stem c1 c2 c3 c4,
    s = stem ++ [c1; c2; c3; c4] /\
    lowerUnit c1 = k1 /\ lowerUnit c2 = k2 /\
    lowerUnit c3 = k3 /\ lowerUnit c4 = k4.
Proof.
  split.
  - intros H. apply endsWith_inv in H as (stem' & H).
    unfold toLowerCase in H.
    apply map_eq_app in H as (stem & tail & -> & _ & Htail).
    destruct tail as [|c1 [|c2 [|c3 [|c4 [|c5 tail]]]]]; try discriminate.
    injection Htail as H1 H2 H3 H4.
    exists stem, c1, c2, c3, c4. tauto.
  - intros (stem & c1 & c2 & c3 & c4 & -> & <- & <- & <- & <-).
    rewrite toLowerCase_app. apply endsWith_app.
Qed.

(** The test [toLowerCase().endsWith('.zip')] and the expression
    [/\.zip$/i] agree: they hold of the names that end in [.zip] in any
    case, and then the expression takes off the last four units. *)
Lemma endsWith_dotZip (s : jsstring) :
  endsWith dotZip (toLowerCase s) = true <-> endsInDotZip s.
Proof.
  change dotZip with [46; 122; 105; 112]%N.
  rewrite endsWith_lowered. unfold endsInDotZip. split.
  - intros (stem & c1 & z & i & p & -> & H1 & Hz & Hi & Hp).
    apply (proj1 (lowerUnit_dot c1)) in H1. subst c1.
    apply (proj1 (@lowerUnit_letter z 122%N ltac:(lia))) in Hz.
    apply (proj1 (@lowerUnit_letter i 105%N ltac:(lia))) in Hi.
    apply (proj1 (@lowerUnit_letter p 112%N ltac:(lia))) in Hp.
    exists stem, z, i, p. repeat split; lia.
  - intros (stem & z & i & p & -> & Hz & Hi & Hp).
    exists stem, 46%N, z, i, p. split; [reflexivity|].
    rewrite lowerUnit_dot, !lowerUnit_letter by lia.
    repeat split; lia.
Qed.

Lemma endsWith_dotPdf (s : jsstring) :
  endsWith dotPdf (toLowerCase s) = true <-> endsInDotPdf s.
Proof.
  change dotPdf with [46; 112; 100; 102]%N.
  rewrite endsWith_lowered. unfold endsInDotPdf. split.
  - intros (stem & c1 & p & d & f & -> & H1 & Hp & Hd & Hf).
    apply (proj1 (lowerUnit_dot c1)) in H1. subst c1.
    apply (proj1 (@lowerUnit_letter p 112%N ltac:(lia))) in Hp.
    apply (proj1 (@lowerUnit_letter d 100%N ltac:(lia))) in Hd.
    apply (proj1 (@lowerUnit_letter f 102%N ltac:(lia))) in Hf.
    exists stem, p, d, f. repeat split; lia.
  - intros (stem & p & d & f & -> & Hp & Hd & Hf).
    exists stem, 46%N, p, d, f. split; [reflexivity|].
    rewrite lowerUnit_dot, !lowerUnit_letter by lia.
    repeat split; lia.
Qed.

Section PipelineMore.

Context {Blob : Type} {zipLib : JSZipAPI Blob} {fileLib : FileAPI Blob}.

(** X5.  The loop sorts an input by its name first and its media type
    second, and the three kinds have exact conditions: an archive has a name
    that ends in [.zip] in any case; a loose PDF has a name that does not,
    and the media type 'application/pdf' or a name that ends in [.pdf] in any
    case; everything else is ignored. *)
Theorem classify_exact (file : File Blob) :
  (classify file = Archive <-> endsInDotZip (name file)) /\
  (classify file = LoosePdf <->
   ~ endsInDotZip (name file) /\
   (type file = lit "application/pdf" \/ endsInDotPdf (name file))) /\
  (classify file = Ignored <->
   ~ endsInDotZip (name file) /\
   type file <> lit "application/pdf" /\ ~ endsInDotPdf (name file)).
Proof.
  unfold classify.
  rewrite <- endsWith_dotZip, <- endsWith_dotPdf.
  change (lit "application/pdf") with applicationPdf.
  rewrite <- (eqb_eq (type file) applicationPdf).
  destruct (endsWith dotZip (toLowerCase (name file)));
    destruct (eqb (type file) applicationPdf);
    destruct (endsWith dotPdf (toLowerCase (name file)));
    simpl; intuition congruence.
Qed.

Lemma zipNameOf_split (file : File Blob) :
  classify file = Archive ->
  exists stem c1 c2 c3 c4,
    name file = stem ++ [c1; c2; c3; c4] /\ zipNameOf file = stem.
Proof.
  unfold classify, zipNameOf.
  destruct (endsWith dotZip (toLowerCase (name file))) eqn:Hzip.
  2:{ destruct (_ || _); discriminate. }
  intros _. change dotZip with [46; 122; 105; 112]%N in Hzip.
  apply endsWith_lowered in Hzip
    as (stem & c1 & c2 & c3 & c4 & Hname & H1 & H2 & H3 & H4).
  exists stem, c1, c2, c3, c4. split; [exact Hname|].
  rewrite Hname. apply replaceAtEndCI_app.
  change dotZip with [46; 122; 105; 112]%N. simpl.
  rewrite (@canonicalize_lowerUnit _ _ H1), (@canonicalize_lowerUnit _ _ H2),
          (@canonicalize_lowerUnit _ _ H3), (@canonicalize_lowerUnit _ _ H4).
  now rewrite !N.eqb_refl.
Qed.

(** X6.  For an archive input the name recorded by the loop is the file
    name without its last four code units: the test that sorts the input
    ([toLowerCase().endsWith('.zip')]) and the expression that takes the
    extension off ([/\.zip$/i]) agree on every name. *)
Theorem zipNameOf_archive (file : File Blob) :
  classify file = Archive ->
  exists ext, length ext = 4 /\ name file = zipNameOf file ++ ext.
Proof.
  intros Hc.
  destruct (zipNameOf_split file Hc)
    as (stem & c1 & c2 & c3 & c4 & Hname & Hstem).
  exists [c1; c2; c3; c4]. split; [reflexivity|].
  now rewrite Hstem.
Qed.

Lemma AppState_ext (s1 s2 : AppState Blob) :
  files s1 = files s2 -> uploadedZipName s1 = uploadedZipName s2 -> s1 = s2.
Proof.
  destruct s1, s2. simpl. now intros -> ->.
Qed.

(** X7.  Submissions compose: two submissions one after the other leave
    the state that one submission of all the inputs leaves, and a submission
    without inputs leaves the state as it is. *)
Theorem handleFiles_compose (st : AppState Blob)
    (first second : list (File Blob)) :
  handleFiles (handleFiles st first) second = handleFiles st (first ++ second)
  /\ handleFiles st [] = st.
Proof.
  split; apply AppState_ext.
  - rewrite !handleFiles_files, flat_map_app, app_assoc. reflexivity.
  - rewrite !handleFiles_uploadedZipName.
    unfold archivesOf. now rewrite filter_app, map_app, last_app_default.
  - rewrite handleFiles_files. simpl. apply app_nil_r.
  - now rewrite handleFiles_uploadedZipName.
Qed.

(** X8.  An input that is neither an archive nor a PDF leaves no trace:
    the submission gives the state it gives without that input. *)
Theorem ignored_input_leaves_no_trace (st : AppState Blob)
    (before after : list (File Blob)) (file : File Blob) :
  classify file = Ignored ->
  handleFiles st (before ++ file :: after) = handleFiles st (before ++ after).
Proof.
  intros Hc. apply AppState_ext.
  - rewrite !handleFiles_files, !flat_map_app. simpl.
    now rewrite (itemsOf_ignored _ Hc).
  - rewrite !handleFiles_uploadedZipName. unfold archivesOf.
    rewrite !filter_app. simpl. unfold isArchive at 2. now rewrite Hc.
Qed.

Lemma itemsOf_length (file : File Blob) :
  (if isArchive file then 1 else 0) <= length (itemsOf file) /\
  (isArchive file = false ->
   length (itemsOf file) =
   match classify file with Ignored => 0 | _ => 1 end).
Proof.
  unfold isArchive. destruct (classify file) eqn:Hc.
  - split; [|discriminate]. rewrite (itemsOf_archive _ Hc).
    destruct (extractPDFsFromZip file) as [[|pdf pdfFiles]|]; simpl; lia.
  - rewrite (itemsOf_loosePdf _ Hc). simpl. split; [lia|reflexivity].
  - rewrite (itemsOf_ignored _ Hc). simpl. split; [lia|reflexivity].
Qed.

(** X9.  A submission adds one item for each loose PDF and at least one
    item for each archive, readable or not: the batch grows by at least the
    number of inputs that are not ignored, and by exactly that number when
    no input is an archive. *)
Theorem handleFiles_grows (st : AppState Blob) (fileList : list (File Blob)) :
  let counted :=
    filter (fun file => match classify file with
                        | Ignored => false
                        | _ => true
                        end) fileList in
  length (files st) + length counted <= length (files (handleFiles st fileList))
  /\ (archivesOf fileList = [] ->
      length (files (handleFiles st fileList)) =
      length (files st) + length counted).
Proof.
  intros counted. rewrite handleFiles_files, length_app. subst counted.
  induction fileList as [|file rest [IHle IHeq]]; simpl.
  - split; [lia|reflexivity].
  - rewrite length_app.
    destruct (itemsOf_length file) as [Hmin Hexact].
    unfold archivesOf in *. simpl. unfold isArchive in *.
    destruct (classify file); simpl in *.
    + split; [lia|discriminate].
    + specialize (Hexact eq_refl). split; [lia|]. intros H. specialize (IHeq H). lia.
    + specialize (Hexact eq_refl). split; [lia|]. intros H. specialize (IHeq H). lia.
Qed.

(** Every item of a session was built by the loop from its own
    [originalFile], as a PDF or as an archive that gave nothing. *)
Lemma itemsOf_origin (file : File Blob) (f : ProcessedFile Blob) :
  In f (itemsOf file) ->
  f = processedFileOf (originalFile f) \/
  f = archiveError (originalFile f) msgNoPdfInZip \/
  f = archiveError (originalFile f) msgZipUnreadable.
Proof.
  destruct (classify file) eqn:Hc.
  - rewrite (itemsOf_archive _ Hc).
    destruct (extractPDFsFromZip file) as [[|pdf pdfFiles]|].
    + intros [<-|[]]. right. now left.
    + intros Hin. apply in_map_iff in Hin as (x & <- & _). now left.
    + intros [<-|[]]. right. now right.
  - rewrite (itemsOf_loosePdf _ Hc). intros [<-|[]]. now left.
  - rewrite (itemsOf_ignored _ Hc). intros [].
Qed.

Lemma Reachable_origin (st : AppState Blob) :
  Reachable st ->
  forall f, In f (files st) ->
    f = processedFileOf (originalFile f) \/
    f = archiveError (originalFile f) msgNoPdfInZip \/
    f = archiveError (originalFile f) msgZipUnreadable.
Proof.
  induction 1 as [|st fileList _ IH|st index _ IH|st _ IH]; intros f Hin.
  - destruct Hin.
  - rewrite handleFiles_files in Hin. apply in_app_or in Hin as [Hin|Hin].
    + now apply IH.
    + apply in_flat_map in Hin as (file & _ & Hin).
      now apply (itemsOf_origin file).
  - apply IH. now apply removeFile_In in Hin.
  - destruct Hin.
Qed.

(** X10.  In every state of a session each row is consistent: its
    [originalName] is the name of its file; its status is ['error'] exactly
    when it has a message to show; a row with status ['error'] shows the
    original name as new name; a row with status ['processed'] has no
    message and its new name is the one the normalizer gives for its
    original name. *)
Theorem rows_are_consistent (st : AppState Blob) (f : ProcessedFile Blob) :
  Reachable st ->
  In f (files st) ->
  originalName f = name (originalFile f) /\
  (status f = StatusError <-> showsErrorMessage f = true) /\
  (status f = StatusError -> newName f = originalName f) /\
  (status f = StatusProcessed ->
   errorMessage f = None /\
   processFileName (originalName f) =
   {| NameResult.newName := newName f; NameResult.error := None |}).
Proof.
  intros Hreach Hin.
  destruct (Reachable_origin Hreach f Hin) as [E|[E|E]].
  - set (file := originalFile f) in *. rewrite E.
    unfold processedFileOf, showsErrorMessage. simpl.
    destruct (processFileName_cases (name file))
      as [[_ R]|[[_ [_ R]]|[[_ [_ [_ [_ R]]]]|[_ [_ [_ R]]]]]];
      rewrite R; simpl; repeat split; try reflexivity;
      try discriminate; try (intros _; reflexivity).
  - rewrite E. unfold archiveError, showsErrorMessage. simpl.
    repeat split; try reflexivity; discriminate.
  - rewrite E. unfold archiveError, showsErrorMessage. simpl.
    repeat split; try reflexivity; discriminate.
Qed.

Lemma filter_index_keep {A : Type} (start index : nat) (l : list A) :
  index < start \/ start + length l <= index ->
  map snd (filter (fun p => negb (fst p =? index))
                  (combine (seq start (length l)) l)) = l.
Proof.
  revert start; induction l as [|x l IH]; intros start Hout; simpl.
  - reflexivity.
  - destruct (Nat.eqb_spec start index) as [E|_]; [simpl in Hout; lia|].
    simpl. f_equal. apply IH. simpl in Hout. lia.
Qed.

Lemma filter_index_drop {A : Type} (start : nat) (l1 l2 : list A) (x : A) :
  map snd (filter (fun p => negb (fst p =? start + length l1))
                  (combine (seq start (length (l1 ++ x :: l2)))
                           (l1 ++ x :: l2))) = l1 ++ l2.
Proof.
  revert start; induction l1 as [|y l1 IH]; intros start; simpl.
  - rewrite Nat.add_0_r, Nat.eqb_refl. simpl.
    apply filter_index_keep. lia.
  - destruct (Nat.eqb_spec start (start + S (length l1))) as [E|_]; [lia|].
    simpl. f_equal.
    replace (start + S (length l1)) with (S start + length l1) by lia.
    apply IH.
Qed.

Lemma removeFile_files_at (st : AppState Blob)
    (front back : list (ProcessedFile Blob)) (f : ProcessedFile Blob) :
  files st = front ++ f :: back ->
  files (removeFile st (length front)) = front ++ back.
Proof.
  intros Hfiles. unfold removeFile. simpl. rewrite Hfiles.
  apply (filter_index_drop 0).
Qed.

(** X11.  [removeFile] takes out the row at the index it is given and
    nothing else: the rows before and after keep their order, and the
    recorded archive name stays, even when the last row goes.  An index
    past the end leaves the state as it is. *)
Theorem removeFile_takes_out_one_row (st : AppState Blob) :
  (forall front f back,
     files st = front ++ f :: back ->
     removeFile st (length front) =
     {| files := front ++ back; uploadedZipName := uploadedZipName st |}) /\
  (forall index, length (files st) <= index -> removeFile st index = st).
Proof.
  split.
  - intros front f back Hfiles. apply AppState_ext; [|reflexivity].
    now apply (@removeFile_files_at st front back f).
  - intros index Hout. apply AppState_ext; [|reflexivity].
    unfold removeFile. simpl. apply filter_index_keep. lia.
Qed.

(** X12.  Rows with status ['error'] have no part in the package: taking
    such a row out changes nothing in what [downloadAllAsZip] does. *)
Theorem removing_error_row_keeps_package (st : AppState Blob)
    (front back : list (ProcessedFile Blob)) (f : ProcessedFile Blob) :
  files st = front ++ f :: back ->
  status f = StatusError ->
  downloadAllAsZip (removeFile st (length front)) = downloadAllAsZip st.
Proof.
  intros Hfiles Herr.
  assert (Hsel : filter isProcessed (files (removeFile st (length front))) =
                 filter isProcessed (files st)).
  { rewrite (@removeFile_files_at st front back f Hfiles), Hfiles, !filter_app.
    assert (Hp : isProcessed f = false)
      by (unfold isProcessed; now rewrite Herr).
    simpl. now rewrite Hp. }
  unfold downloadAllAsZip. rewrite Hsel. reflexivity.
Qed.

(** X13.  The three numbers of the statistics add up: every row counts
    either as processed or as an error, and none as both. *)
Theorem statistics_add_up (st : AppState Blob) :
  length (successfulFiles st) + length (errorFiles st) = length (files st) /\
  forall f, ~ (In f (successfulFiles st) /\ In f (errorFiles st)).
Proof.
  unfold successfulFiles, errorFiles. split.
  - induction (files st) as [|f l IH]; simpl; [reflexivity|].
    destruct (status f); simpl; lia.
  - intros f [H1 H2]. apply filter_In in H1 as [_ H1], H2 as [_ H2].
    destruct (status f); discriminate.
Qed.

(** X14.  The button for the package is on the page exactly when
    [downloadAllAsZip] has something to package. *)
Theorem showsDownloadAll_iff (st : AppState Blob) :
  showsDownloadAll st = true <-> downloadAllAsZip st <> NothingToPackage.
Proof.
  unfold showsDownloadAll, downloadAllAsZip, successfulFiles.
  change (filter (fun f => Status_eqb (status f) StatusProcessed) (files st))
    with (filter isProcessed (files st)).
  destruct (files st) as [|f l] eqn:Hfiles; simpl.
  - split; [discriminate|congruence].
  - destruct (isProcessed f); cbn [length Nat.ltb Nat.leb Nat.eqb andb].
    + split; [|reflexivity]. intros _.
      destruct (addAll _ _); [|discriminate].
      destruct (JSZip_generateAsync _); discriminate.
    + destruct (filter isProcessed l) as [|g sel];
        cbn [length Nat.ltb Nat.leb Nat.eqb andb].
      * split; [discriminate|congruence].
      * split; [|reflexivity]. intros _.
        destruct (addAll _ _); [|discriminate].
        destruct (JSZip_generateAsync _); discriminate.
Qed.

Lemma extractLoop_inv (entries : list (jsstring * ZipObject Blob))
    (pdfFiles result : list (File Blob)) :
  extractLoop entries pdfFiles = Some result ->
  exists ws,
    pdfEntries entries = map readable ws /\
    result = pdfFiles ++ map fileOfEntry ws.
Proof.
  revert pdfFiles result.
  induction entries as [|[filename file] rest IH]; intros pdfFiles result H.
  - simpl in H. injection H as <-. exists []. simpl.
    now rewrite app_nil_r.
  - simpl in H. unfold pdfEntries. simpl. unfold isPdfEntry at 1. simpl.
    destruct (negb (dir file) && endsWith dotPdf (toLowerCase filename)).
    + destruct (async file) as [blob|] eqn:Hasync; [|discriminate].
      destruct (IH _ _ H) as (ws & Hws & ->).
      exists ((filename, blob) :: ws). simpl. split.
      * unfold readable at 1. simpl. rewrite Hasync. f_equal. exact Hws.
      * now rewrite <- app_assoc.
    + apply IH. exact H.
Qed.

Lemma extractLoop_unreadable (entries : list (jsstring * ZipObject Blob))
    (pdfFiles : list (File Blob)) (filename : jsstring) (e : ZipObject Blob) :
  In (filename, e) entries ->
  isPdfEntry (filename, e) = true ->
  async e = None ->
  extractLoop entries pdfFiles = None.
Proof.
  intros Hin Hpdf Hasync. revert pdfFiles.
  induction entries as [|[n x] rest IH]; intros pdfFiles; [destruct Hin|].
  simpl. destruct Hin as [E|Hin].
  - injection E as -> ->. unfold isPdfEntry in Hpdf. simpl in Hpdf.
    now rewrite Hpdf, Hasync.
  - destruct (negb (dir x) && endsWith dotPdf (toLowerCase n));
      [destruct (async x)|]; auto.
Qed.

(** X15.  [extractPDFsFromZip] succeeds exactly when the archive loads and
    every entry that is no directory and has a name ending in [.pdf] can be
    read; the files it returns are those entries and no other, in the order
    of the archive, each with the entry's name and bytes and the media type
    'application/pdf'. *)
Theorem extractPDFsFromZip_exact (zipFile : File Blob)
    (pdfFiles : list (File Blob)) :
  extractPDFsFromZip zipFile = Some pdfFiles <->
  exists zipContent,
    JSZip_loadAsync (content zipFile) = Some zipContent /\
    pdfEntries (JSZip_files zipContent) =
    map (fun f => (name f, Some (content f))) pdfFiles /\
    Forall (fun f => type f = lit "application/pdf") pdfFiles.
Proof.
  unfold extractPDFsFromZip. split.
  - destruct (JSZip_loadAsync (content zipFile)) as [zipContent|];
      [|discriminate].
    intros H. apply extractLoop_inv in H as (ws & Hws & ->).
    exists zipContent. split; [reflexivity|]. simpl. split.
    + rewrite Hws, map_map. reflexivity.
    + apply Forall_forall. intros f Hin.
      apply in_map_iff in Hin as (w & <- & _). reflexivity.
  - intros (zipContent & -> & Hentries & Htypes).
    rewrite (@extractLoop_readable Blob
               (JSZip_files zipContent)
               (map (fun f => (name f, content f)) pdfFiles) []).
    + simpl. f_equal. rewrite map_map.
      rewrite <- (map_id pdfFiles) at 2. apply map_ext_in.
      intros f Hin. rewrite Forall_forall in Htypes.
      specialize (Htypes f Hin). destruct f as [n t c]. simpl in *.
      unfold fileOfEntry. simpl. now subst t.
    + rewrite Hentries, map_map. reflexivity.
Qed.

(** X16.  One entry is enough to lose an archive: when an entry that is
    no directory and has a name ending in [.pdf] in any case cannot be
    read, the archive as a whole gets the single row for an unreadable
    archive, and none of its other entries gets a row. *)
Theorem unreadable_entry_rejects_archive (file : File Blob)
    (zipContent : JSZip) (filename : jsstring) (e : ZipObject Blob) :
  classify file = Archive ->
  JSZip_loadAsync (content file) = Some zipContent ->
  In (filename, e) (JSZip_files zipContent) ->
  dir e = false ->
  endsInDotPdf filename ->
  async e = None ->
  itemsOf file =
  [ {| originalFile := file;
       originalName := name file;
       newName := name file;
       status := StatusError;
       errorMessage := Some msgZipUnreadable |} ].
Proof.
  intros Hc Hload Hin Hdir Hpdf Hasync.
  rewrite (itemsOf_archive _ Hc). unfold extractPDFsFromZip. rewrite Hload.
  rewrite (@extractLoop_unreadable _ [] filename e Hin); try assumption.
  - reflexivity.
  - unfold isPdfEntry. simpl. rewrite Hdir. simpl.
    now apply endsWith_dotPdf.
Qed.

(** X17.  A readable archive with at least one PDF entry gets one row per
    PDF entry, in the order of the archive: the rows carry the names and the
    bytes of the entries, and each new name and status is the normalizer's
    verdict on the entry's name. *)
Theorem archive_rows_follow_entries (file : File Blob)
    (zipContent : JSZip) (ws : list (jsstring * Blob)) :
  classify file = Archive ->
  JSZip_loadAsync (content file) = Some zipContent ->
  pdfEntries (JSZip_files zipContent) =
  map (fun w => (fst w, Some (snd w))) ws ->
  ws <> [] ->
  map (@originalName Blob) (itemsOf file) = map fst ws /\
  map (fun f => content (originalFile f)) (itemsOf file) = map snd ws /\
  map (@newName Blob) (itemsOf file) =
  map (fun w => NameResult.newName (processFileName (fst w))) ws /\
  map (@errorMessage Blob) (itemsOf file) =
  map (fun w => NameResult.error (processFileName (fst w))) ws.
Proof.
  intros Hc Hload Hentries Hne.
  rewrite (itemsOf_archive _ Hc). unfold extractPDFsFromZip. rewrite Hload.
  rewrite (@extractLoop_readable Blob (JSZip_files zipContent) ws [] Hentries).
  simpl. destruct ws as [|w ws]; [contradiction|].
  cbn [map]. rewrite !map_map. cbn [map].
  repeat split; reflexivity.
Qed.

(** X18.  An archive whose name is nothing but the extension records the
    empty name, which counts as no name at all: when it is the last archive
    of a submission, an archive offered for download afterwards has the
    default name 'bAV-Angebot.zip'. *)
Theorem bare_extension_archive_gets_default_name (st : AppState Blob)
    (before after : list (File Blob)) (file : File Blob) :
  classify file = Archive ->
  length (name file) = 4 ->
  archivesOf after = [] ->
  uploadedZipName (handleFiles st (before ++ file :: after)) = [] /\
  forall zipFileName zipBlob,
    downloadAllAsZip (handleFiles st (before ++ file :: after)) =
    Download zipFileName zipBlob ->
    zipFileName = lit "bAV-Angebot.zip".
Proof.
  intros Hc Hlen Hafter.
  assert (Hname : uploadedZipName (handleFiles st (before ++ file :: after))
                  = []).
  { rewrite handleFiles_uploadedZipName. unfold archivesOf in *.
    rewrite filter_app. simpl. unfold isArchive at 2. rewrite Hc, Hafter.
    rewrite map_app, last_app_default. simpl.
    destruct (zipNameOf_split file Hc)
      as (stem & c1 & c2 & c3 & c4 & Hsplit & Hstem).
    rewrite Hstem. rewrite Hsplit, length_app in Hlen.
    destruct stem; [reflexivity|simpl in Hlen; lia]. }
  split; [exact Hname|].
  intros zipFileName zipBlob Hd.
  apply downloadAllAsZip_name in Hd. now rewrite Hname in Hd.
Qed.

End PipelineMore.

(* ================================================================== *)
(** ** More runs on concrete inputs *)

Lemma classify_exact_witness :
  classify {| name := lit "Scan ohne Endung"; type := lit "application/pdf";
              content := Raw [1%N] |} = LoosePdf.
Proof.
  apply (proj1 (proj2 (classify_exact
                  {| name := lit "Scan ohne Endung";
                     type := lit "application/pdf";
                     content := Raw [1%N] |}))).
  split; [|left; reflexivity].
  intros (stem & z & i & p & Hname & _ & _ & [Hp|Hp]).
  - apply (f_equal (fun s => nth 0 (rev s) 0%N)) in Hname.
    rewrite rev_app_distr in Hname. subst p. vm_compute in Hname.
    discriminate.
  - apply (f_equal (fun s => nth 0 (rev s) 0%N)) in Hname.
    rewrite rev_app_distr in Hname. subst p. vm_compute in Hname.
    discriminate.
Defined.

Lemma zipNameOf_archive_witness :
  exists ext, length ext = 4 /\ name leerZip = zipNameOf leerZip ++ ext.
Proof.
  apply (zipNameOf_archive leerZip). reflexivity.
Defined.

Lemma ignored_input_leaves_no_trace_witness :
  handleFiles initialState ([looseOk] ++ notiz :: [angebotZip]) =
  handleFiles initialState ([looseOk] ++ [angebotZip]).
Proof.
  apply (ignored_input_leaves_no_trace initialState [looseOk] [angebotZip] notiz).
  reflexivity.
Defined.

Lemma handleFiles_grows_witness :
  length (files (handleFiles initialState [looseOk; notiz; looseBad])) =
  length (files (@initialState MemBlob)) + 2.
Proof.
  apply (proj2 (handleFiles_grows initialState [looseOk; notiz; looseBad])).
  reflexivity.
Defined.

Lemma rows_are_consistent_witness :
  processFileName (lit "A_B_C_D_note.pdf") =
  {| NameResult.newName := lit "note.pdf"; NameResult.error := None |}.
Proof.
  pose proof (@rows_are_consistent MemBlob memZip
                (handleFiles initialState [angebotZip])
                (processedFileOf
                   {| name := lit "A_B_C_D_note.pdf"; type := applicationPdf;
                      content := Raw [3%N] |})
                (Reachable_handleFiles _ Reachable_initial)) as H.
  destruct H as (_ & _ & _ & H).
  - right. left. reflexivity.
  - apply H. reflexivity.
Defined.

Lemma removeFile_takes_out_one_row_witness :
  map (@originalName MemBlob)
      (files (removeFile (handleFiles initialState [looseOk; looseBad; kaputtZip])
                         1)) =
  [name looseOk; name kaputtZip].
Proof.
  pose proof (proj1 (removeFile_takes_out_one_row
                       (handleFiles (zipLib := memZip) initialState
                                    [looseOk; looseBad; kaputtZip]))
                    [processedFileOf looseOk] (processedFileOf looseBad)
                    [archiveError kaputtZip msgZipUnreadable]) as H.
  cbn [length] in H. rewrite H; reflexivity.
Defined.

Lemma removing_error_row_keeps_package_witness :
  downloadAllAsZip
    (removeFile (handleFiles initialState [looseOk; looseBad; kaputtZip]) 1) =
  downloadAllAsZip (handleFiles initialState [looseOk; looseBad; kaputtZip]).
Proof.
  apply (@removing_error_row_keeps_package MemBlob memZip memFiles
           (handleFiles initialState [looseOk; looseBad; kaputtZip])
           [processedFileOf looseOk]
           [archiveError kaputtZip msgZipUnreadable]
           (processedFileOf looseBad)).
  - reflexivity.
  - reflexivity.
Defined.

Lemma unreadable_entry_rejects_archive_witness :
  @itemsOf MemBlob brittleZip halbZip =
  [ {| originalFile := halbZip;
       originalName := name halbZip;
       newName := name halbZip;
       status := StatusError;
       errorMessage := Some msgZipUnreadable |} ].
Proof.
  apply (@unreadable_entry_rejects_archive MemBlob brittleZip halbZip
           [(lit "A_B_C_D_gut.pdf", Raw [5]%N);
            (lit "A_B_C_D_leer.PDF", Raw [])]
           (lit "A_B_C_D_leer.PDF")
           {| dir := false; async := None |}).
  - reflexivity.
  - reflexivity.
  - right. left. reflexivity.
  - reflexivity.
  - exists (lit "A_B_C_D_leer"), 80%N, 68%N, 70%N.
    repeat split; auto.
  - reflexivity.
Defined.

Lemma archive_rows_follow_entries_witness :
  map (@originalName MemBlob) (itemsOf angebotZip) =
  map fst [(lit "invoice.pdf", Raw [1]%N); (lit "A_B_C_D_note.pdf", Raw [3]%N)].
Proof.
  apply (@archive_rows_follow_entries MemBlob memZip angebotZip
           [(lit "invoice.pdf", Raw [1]%N);
            (lit "readme.txt", Raw [2]%N);
            (lit "A_B_C_D_note.pdf", Raw [3]%N)]
           [(lit "invoice.pdf", Raw [1]%N);
            (lit "A_B_C_D_note.pdf", Raw [3]%N)]).
  - reflexivity.
  - reflexivity.
  - reflexivity.
  - discriminate.
Defined.

Lemma bare_extension_archive_gets_default_name_witness :
  uploadedZipName
    (handleFiles (handleFiles initialState [angebotZip])
                 ([looseOk] ++ zipFile ".ZIP" (Raw [1%N]) :: [looseBad]))
  = [].
Proof.
  apply (@bare_extension_archive_gets_default_name MemBlob memZip memFiles
           (handleFiles initialState [angebotZip])
           [looseOk] [looseBad] (zipFile ".ZIP" (Raw [1%N]))).
  - reflexivity.
  - reflexivity.
  - reflexivity.
Defined.
